(** * SevenSeas: key store and Sapling consolidation

    A shallow embedding of [src/keystore.cpp] (class [CBasicKeyStore]) and of
    [src/wallet/asyncrpcoperation_saplingconsolidation.cpp]
    (class [AsyncRPCOperation_saplingconsolidation]).

    The maps of the key store are [std::map]s and [std::set]s; they are
    embedded as [gmap] and [gset].  A method [bool f(args, T& out)] becomes a
    function returning [option T]; a mutating method [bool f(args)] becomes a
    function from the store to the returned flag and the new store.  The locks
    ([LOCK], [LOCK2]) are not modelled: every method is one atomic step. *)

From Stdlib Require Import ZArith List Lia Sorted.
From stdpp Require Import gmap strings list fin_maps pretty.

Local Open Scope Z_scope.

(** ** Types and derivations declared outside the two source files

    [key.h], [script.h], [zcash/Address.hpp], [zcash/zip32.h] and
    [zcash/NoteEncryption.hpp] are not part of the sources.  Their types are
    kept abstract (the key types of the maps are countable, as [gmap]
    requires), and so are the derivations between keys. *)
Class Primitives := {
  (* transparent keys and scripts *)
  CKeyID : Type;
  CKeyID_eq :: EqDecision CKeyID;
  CKeyID_countable :: Countable CKeyID;
  CKey : Type;
  CPubKey : Type;
  GetPubKey : CKey -> CPubKey;          (* key.GetPubKey() *)
  GetID : CPubKey -> CKeyID;            (* pubkey.GetID() *)
  CScriptID : Type;
  CScriptID_eq :: EqDecision CScriptID;
  CScriptID_countable :: Countable CScriptID;
  CScript : Type;
  CScript_eq :: EqDecision CScript;
  CScript_countable :: Countable CScript;
  ScriptID : CScript -> CScriptID;      (* CScriptID(redeemScript) *)
  script_size : CScript -> Z;           (* redeemScript.size() *)
  MAX_SCRIPT_ELEMENT_SIZE : Z;
  (* HD seed *)
  HDSeed : Type;
  IsNull : HDSeed -> bool;              (* seed.IsNull() *)
  (* Sprout *)
  SproutPaymentAddress : Type;
  SproutPaymentAddress_eq :: EqDecision SproutPaymentAddress;
  SproutPaymentAddress_countable :: Countable SproutPaymentAddress;
  SproutSpendingKey : Type;
  SproutViewingKey : Type;
  ReceivingKey : Type;
  ZCNoteDecryption : Type;
  sk_address : SproutSpendingKey -> SproutPaymentAddress;   (* sk.address() *)
  receiving_key : SproutSpendingKey -> ReceivingKey;        (* sk.receiving_key() *)
  vk_address : SproutViewingKey -> SproutPaymentAddress;    (* vk.address() *)
  sk_enc : SproutViewingKey -> ReceivingKey;                (* vk.sk_enc *)
  NoteDecryption : ReceivingKey -> ZCNoteDecryption;        (* ZCNoteDecryption(k) *)
  (* Sapling *)
  uint256 : Type;
  uint256_eq :: EqDecision uint256;
  uint256_countable :: Countable uint256;
  blob88 : Type;
  SaplingPaymentAddress : Type;
  SaplingPaymentAddress_eq :: EqDecision SaplingPaymentAddress;
  SaplingPaymentAddress_countable :: Countable SaplingPaymentAddress;
  SaplingIncomingViewingKey : Type;
  SaplingIncomingViewingKey_eq :: EqDecision SaplingIncomingViewingKey;
  SaplingIncomingViewingKey_countable :: Countable SaplingIncomingViewingKey;
  SaplingExtendedFullViewingKey : Type;
  SaplingExtendedFullViewingKey_eq :: EqDecision SaplingExtendedFullViewingKey;
  SaplingExtendedFullViewingKey_countable :: Countable SaplingExtendedFullViewingKey;
  SaplingExtendedSpendingKey : Type;
  ToXFVK : SaplingExtendedSpendingKey -> SaplingExtendedFullViewingKey;   (* sk.ToXFVK() *)
  in_viewing_key : SaplingExtendedFullViewingKey -> SaplingIncomingViewingKey;
                                        (* extfvk.fvk.in_viewing_key() *)
  fvk_ovk : SaplingExtendedFullViewingKey -> uint256;                     (* extfvk.fvk.ovk *)
  DefaultAddress : SaplingExtendedFullViewingKey -> SaplingPaymentAddress;
                                        (* extfvk.DefaultAddress() *)
  (* the default-constructed incoming viewing key ([libzcash::SaplingIncomingViewingKey ivk;]) *)
  ivk_default : SaplingIncomingViewingKey;
  SaplingExpandedSpendingKey : Type;
  expsk : SaplingExtendedSpendingKey -> SaplingExpandedSpendingKey;       (* extsk.expsk *)
  expsk_in_viewing_key : SaplingExpandedSpendingKey -> SaplingIncomingViewingKey;
                                        (* expsk.full_viewing_key().in_viewing_key() *)
  expsk_ovk : SaplingExpandedSpendingKey -> uint256;                      (* expsk.ovk *)
  (* the strict order of [std::map<SaplingPaymentAddress, _>] *)
  addr_lt : SaplingPaymentAddress -> SaplingPaymentAddress -> bool;
  (* notes, witnesses and transactions ([wallet.h], [primitives/transaction.h]) *)
  SaplingOutPoint : Type;
  SaplingNote : Type;
  note_value : SaplingNote -> Z;        (* note.value(), a uint64_t *)
  SaplingWitness : Type;
  CTransaction : Type;
  GetHashString : CTransaction -> string;   (* tx.GetHash().ToString() *)
}.

Section Definitions.
Context `{Primitives}.

(** ** keystore.cpp *)

(** [DiversifierPath dPath(ivk, path)] *)
Definition DiversifierPath : Type := SaplingIncomingViewingKey * blob88.

(** The data members of [CBasicKeyStore]: those guarded by [cs_KeyStore]
    first, then those guarded by [cs_SpendingKeyStore]. *)
Record CBasicKeyStore := mkKeyStore {
  mapKeys : gmap CKeyID CKey;
  mapScripts : gmap CScriptID CScript;
  setWatchOnly : gset CScript;
  setSaplingWatchOnly : gset SaplingExtendedFullViewingKey;
  hdSeed : HDSeed;
  mapSproutSpendingKeys : gmap SproutPaymentAddress SproutSpendingKey;
  mapSproutViewingKeys : gmap SproutPaymentAddress SproutViewingKey;
  mapNoteDecryptors : gmap SproutPaymentAddress ZCNoteDecryption;
  mapSaplingSpendingKeys : gmap SaplingExtendedFullViewingKey SaplingExtendedSpendingKey;
  mapSaplingFullViewingKeys : gmap SaplingIncomingViewingKey SaplingExtendedFullViewingKey;
  setSaplingOutgoingViewingKeys : gset uint256;
  mapSaplingIncomingViewingKeys : gmap SaplingPaymentAddress SaplingIncomingViewingKey;
  setSaplingIncomingViewingKeys : gset SaplingIncomingViewingKey;
  mapSaplingPaymentAddresses : gmap SaplingPaymentAddress DiversifierPath;
  mapLastDiversifierPath : gmap SaplingIncomingViewingKey blob88;
}.

(** Field updates. *)
Definition with_mapKeys (f : gmap CKeyID CKey -> gmap CKeyID CKey) (s : CBasicKeyStore) :=
  mkKeyStore (f (mapKeys s)) (mapScripts s) (setWatchOnly s) (setSaplingWatchOnly s)
    (hdSeed s) (mapSproutSpendingKeys s) (mapSproutViewingKeys s) (mapNoteDecryptors s)
    (mapSaplingSpendingKeys s) (mapSaplingFullViewingKeys s)
    (setSaplingOutgoingViewingKeys s) (mapSaplingIncomingViewingKeys s)
    (setSaplingIncomingViewingKeys s) (mapSaplingPaymentAddresses s)
    (mapLastDiversifierPath s).

Definition with_mapScripts (f : gmap CScriptID CScript -> gmap CScriptID CScript)
    (s : CBasicKeyStore) :=
  mkKeyStore (mapKeys s) (f (mapScripts s)) (setWatchOnly s) (setSaplingWatchOnly s)
    (hdSeed s) (mapSproutSpendingKeys s) (mapSproutViewingKeys s) (mapNoteDecryptors s)
    (mapSaplingSpendingKeys s) (mapSaplingFullViewingKeys s)
    (setSaplingOutgoingViewingKeys s) (mapSaplingIncomingViewingKeys s)
    (setSaplingIncomingViewingKeys s) (mapSaplingPaymentAddresses s)
    (mapLastDiversifierPath s).

Definition with_setWatchOnly (f : gset CScript -> gset CScript) (s : CBasicKeyStore) :=
  mkKeyStore (mapKeys s) (mapScripts s) (f (setWatchOnly s)) (setSaplingWatchOnly s)
    (hdSeed s) (mapSproutSpendingKeys s) (mapSproutViewingKeys s) (mapNoteDecryptors s)
    (mapSaplingSpendingKeys s) (mapSaplingFullViewingKeys s)
    (setSaplingOutgoingViewingKeys s) (mapSaplingIncomingViewingKeys s)
    (setSaplingIncomingViewingKeys s) (mapSaplingPaymentAddresses s)
    (mapLastDiversifierPath s).

Definition with_setSaplingWatchOnly
    (f : gset SaplingExtendedFullViewingKey -> gset SaplingExtendedFullViewingKey)
    (s : CBasicKeyStore) :=
  mkKeyStore (mapKeys s) (mapScripts s) (setWatchOnly s) (f (setSaplingWatchOnly s))
    (hdSeed s) (mapSproutSpendingKeys s) (mapSproutViewingKeys s) (mapNoteDecryptors s)
    (mapSaplingSpendingKeys s) (mapSaplingFullViewingKeys s)
    (setSaplingOutgoingViewingKeys s) (mapSaplingIncomingViewingKeys s)
    (setSaplingIncomingViewingKeys s) (mapSaplingPaymentAddresses s)
    (mapLastDiversifierPath s).

Definition with_hdSeed (seed : HDSeed) (s : CBasicKeyStore) :=
  mkKeyStore (mapKeys s) (mapScripts s) (setWatchOnly s) (setSaplingWatchOnly s)
    seed (mapSproutSpendingKeys s) (mapSproutViewingKeys s) (mapNoteDecryptors s)
    (mapSaplingSpendingKeys s) (mapSaplingFullViewingKeys s)
    (setSaplingOutgoingViewingKeys s) (mapSaplingIncomingViewingKeys s)
    (setSaplingIncomingViewingKeys s) (mapSaplingPaymentAddresses s)
    (mapLastDiversifierPath s).

Definition with_mapSproutSpendingKeys
    (f : gmap SproutPaymentAddress SproutSpendingKey -> gmap SproutPaymentAddress SproutSpendingKey)
    (s : CBasicKeyStore) :=
  mkKeyStore (mapKeys s) (mapScripts s) (setWatchOnly s) (setSaplingWatchOnly s)
    (hdSeed s) (f (mapSproutSpendingKeys s)) (mapSproutViewingKeys s) (mapNoteDecryptors s)
    (mapSaplingSpendingKeys s) (mapSaplingFullViewingKeys s)
    (setSaplingOutgoingViewingKeys s) (mapSaplingIncomingViewingKeys s)
    (setSaplingIncomingViewingKeys s) (mapSaplingPaymentAddresses s)
    (mapLastDiversifierPath s).

Definition with_mapSproutViewingKeys
    (f : gmap SproutPaymentAddress SproutViewingKey -> gmap SproutPaymentAddress SproutViewingKey)
    (s : CBasicKeyStore) :=
  mkKeyStore (mapKeys s) (mapScripts s) (setWatchOnly s) (setSaplingWatchOnly s)
    (hdSeed s) (mapSproutSpendingKeys s) (f (mapSproutViewingKeys s)) (mapNoteDecryptors s)
    (mapSaplingSpendingKeys s) (mapSaplingFullViewingKeys s)
    (setSaplingOutgoingViewingKeys s) (mapSaplingIncomingViewingKeys s)
    (setSaplingIncomingViewingKeys s) (mapSaplingPaymentAddresses s)
    (mapLastDiversifierPath s).

Definition with_mapNoteDecryptors
    (f : gmap SproutPaymentAddress ZCNoteDecryption -> gmap SproutPaymentAddress ZCNoteDecryption)
    (s : CBasicKeyStore) :=
  mkKeyStore (mapKeys s) (mapScripts s) (setWatchOnly s) (setSaplingWatchOnly s)
    (hdSeed s) (mapSproutSpendingKeys s) (mapSproutViewingKeys s) (f (mapNoteDecryptors s))
    (mapSaplingSpendingKeys s) (mapSaplingFullViewingKeys s)
    (setSaplingOutgoingViewingKeys s) (mapSaplingIncomingViewingKeys s)
    (setSaplingIncomingViewingKeys s) (mapSaplingPaymentAddresses s)
    (mapLastDiversifierPath s).

Definition with_mapSaplingSpendingKeys
    (f : gmap SaplingExtendedFullViewingKey SaplingExtendedSpendingKey ->
         gmap SaplingExtendedFullViewingKey SaplingExtendedSpendingKey)
    (s : CBasicKeyStore) :=
  mkKeyStore (mapKeys s) (mapScripts s) (setWatchOnly s) (setSaplingWatchOnly s)
    (hdSeed s) (mapSproutSpendingKeys s) (mapSproutViewingKeys s) (mapNoteDecryptors s)
    (f (mapSaplingSpendingKeys s)) (mapSaplingFullViewingKeys s)
    (setSaplingOutgoingViewingKeys s) (mapSaplingIncomingViewingKeys s)
    (setSaplingIncomingViewingKeys s) (mapSaplingPaymentAddresses s)
    (mapLastDiversifierPath s).

Definition with_mapSaplingFullViewingKeys
    (f : gmap SaplingIncomingViewingKey SaplingExtendedFullViewingKey ->
         gmap SaplingIncomingViewingKey SaplingExtendedFullViewingKey)
    (s : CBasicKeyStore) :=
  mkKeyStore (mapKeys s) (mapScripts s) (setWatchOnly s) (setSaplingWatchOnly s)
    (hdSeed s) (mapSproutSpendingKeys s) (mapSproutViewingKeys s) (mapNoteDecryptors s)
    (mapSaplingSpendingKeys s) (f (mapSaplingFullViewingKeys s))
    (setSaplingOutgoingViewingKeys s) (mapSaplingIncomingViewingKeys s)
    (setSaplingIncomingViewingKeys s) (mapSaplingPaymentAddresses s)
    (mapLastDiversifierPath s).

Definition with_setSaplingOutgoingViewingKeys (f : gset uint256 -> gset uint256)
    (s : CBasicKeyStore) :=
  mkKeyStore (mapKeys s) (mapScripts s) (setWatchOnly s) (setSaplingWatchOnly s)
    (hdSeed s) (mapSproutSpendingKeys s) (mapSproutViewingKeys s) (mapNoteDecryptors s)
    (mapSaplingSpendingKeys s) (mapSaplingFullViewingKeys s)
    (f (setSaplingOutgoingViewingKeys s)) (mapSaplingIncomingViewingKeys s)
    (setSaplingIncomingViewingKeys s) (mapSaplingPaymentAddresses s)
    (mapLastDiversifierPath s).

Definition with_mapSaplingIncomingViewingKeys
    (f : gmap SaplingPaymentAddress SaplingIncomingViewingKey ->
         gmap SaplingPaymentAddress SaplingIncomingViewingKey)
    (s : CBasicKeyStore) :=
  mkKeyStore (mapKeys s) (mapScripts s) (setWatchOnly s) (setSaplingWatchOnly s)
    (hdSeed s) (mapSproutSpendingKeys s) (mapSproutViewingKeys s) (mapNoteDecryptors s)
    (mapSaplingSpendingKeys s) (mapSaplingFullViewingKeys s)
    (setSaplingOutgoingViewingKeys s) (f (mapSaplingIncomingViewingKeys s))
    (setSaplingIncomingViewingKeys s) (mapSaplingPaymentAddresses s)
    (mapLastDiversifierPath s).

Definition with_setSaplingIncomingViewingKeys
    (f : gset SaplingIncomingViewingKey -> gset SaplingIncomingViewingKey)
    (s : CBasicKeyStore) :=
  mkKeyStore (mapKeys s) (mapScripts s) (setWatchOnly s) (setSaplingWatchOnly s)
    (hdSeed s) (mapSproutSpendingKeys s) (mapSproutViewingKeys s) (mapNoteDecryptors s)
    (mapSaplingSpendingKeys s) (mapSaplingFullViewingKeys s)
    (setSaplingOutgoingViewingKeys s) (mapSaplingIncomingViewingKeys s)
    (f (setSaplingIncomingViewingKeys s)) (mapSaplingPaymentAddresses s)
    (mapLastDiversifierPath s).

Definition with_mapSaplingPaymentAddresses
    (f : gmap SaplingPaymentAddress DiversifierPath -> gmap SaplingPaymentAddress DiversifierPath)
    (s : CBasicKeyStore) :=
  mkKeyStore (mapKeys s) (mapScripts s) (setWatchOnly s) (setSaplingWatchOnly s)
    (hdSeed s) (mapSproutSpendingKeys s) (mapSproutViewingKeys s) (mapNoteDecryptors s)
    (mapSaplingSpendingKeys s) (mapSaplingFullViewingKeys s)
    (setSaplingOutgoingViewingKeys s) (mapSaplingIncomingViewingKeys s)
    (setSaplingIncomingViewingKeys s) (f (mapSaplingPaymentAddresses s))
    (mapLastDiversifierPath s).

Definition with_mapLastDiversifierPath
    (f : gmap SaplingIncomingViewingKey blob88 -> gmap SaplingIncomingViewingKey blob88)
    (s : CBasicKeyStore) :=
  mkKeyStore (mapKeys s) (mapScripts s) (setWatchOnly s) (setSaplingWatchOnly s)
    (hdSeed s) (mapSproutSpendingKeys s) (mapSproutViewingKeys s) (mapNoteDecryptors s)
    (mapSaplingSpendingKeys s) (mapSaplingFullViewingKeys s)
    (setSaplingOutgoingViewingKeys s) (mapSaplingIncomingViewingKeys s)
    (setSaplingIncomingViewingKeys s) (mapSaplingPaymentAddresses s)
    (f (mapLastDiversifierPath s)).

(** [std::map::insert(std::make_pair(k, v))]: no effect when [k] is present. *)
Definition map_insert_pair `{Countable K} {V : Type} (k : K) (v : V) (m : gmap K V) : gmap K V :=
  match m !! k with
  | Some _ => m
  | None => <[k := v]> m
  end.

(** [CBasicKeyStore::SetHDSeed] *)
Definition SetHDSeed (seed : HDSeed) (s : CBasicKeyStore) : bool * CBasicKeyStore :=
  if negb (IsNull (hdSeed s)) then (false, s)
  else (true, with_hdSeed seed s).

(** [CBasicKeyStore::HaveHDSeed] *)
Definition HaveHDSeed (s : CBasicKeyStore) : bool := negb (IsNull (hdSeed s)).

(** [CBasicKeyStore::GetHDSeed] *)
Definition GetHDSeed (s : CBasicKeyStore) : option HDSeed :=
  if IsNull (hdSeed s) then None else Some (hdSeed s).

(** [CBasicKeyStore::AddKeyPubKey] *)
Definition AddKeyPubKey (key : CKey) (pubkey : CPubKey) (s : CBasicKeyStore)
    : bool * CBasicKeyStore :=
  (true, with_mapKeys (fun m => <[GetID pubkey := key]> m) s).


(** [CBasicKeyStore::AddCScript]; [error(...)] logs and returns [false]. *)
Definition AddCScript (redeemScript : CScript) (s : CBasicKeyStore) : bool * CBasicKeyStore :=
  if MAX_SCRIPT_ELEMENT_SIZE <? script_size redeemScript then (false, s)
  else (true, with_mapScripts (fun m => <[ScriptID redeemScript := redeemScript]> m) s).

(** [CBasicKeyStore::HaveCScript] *)
Definition HaveCScript (hash : CScriptID) (s : CBasicKeyStore) : bool :=
  bool_decide (is_Some (mapScripts s !! hash)).

(** [CBasicKeyStore::GetCScript] *)
Definition GetCScript (hash : CScriptID) (s : CBasicKeyStore) : option CScript :=
  mapScripts s !! hash.

(** [CBasicKeyStore::AddWatchOnly] *)
Definition AddWatchOnly (dest : CScript) (s : CBasicKeyStore) : bool * CBasicKeyStore :=
  (true, with_setWatchOnly (fun w => {[dest]} ∪ w) s).

(** [CBasicKeyStore::AddSaplingWatchOnly] *)
Definition AddSaplingWatchOnly (extfvk : SaplingExtendedFullViewingKey) (s : CBasicKeyStore)
    : bool * CBasicKeyStore :=
  (true, with_setSaplingWatchOnly (fun w => {[extfvk]} ∪ w) s).

(** [CBasicKeyStore::RemoveWatchOnly] *)
Definition RemoveWatchOnly (dest : CScript) (s : CBasicKeyStore) : bool * CBasicKeyStore :=
  (true, with_setWatchOnly (fun w => w ∖ {[dest]}) s).

(** [CBasicKeyStore::RemoveSaplingWatchOnly] *)
Definition RemoveSaplingWatchOnly (extfvk : SaplingExtendedFullViewingKey) (s : CBasicKeyStore)
    : bool * CBasicKeyStore :=
  (true, with_setSaplingWatchOnly (fun w => w ∖ {[extfvk]}) s).

(** [CBasicKeyStore::HaveWatchOnly(const CScript&)] *)
Definition HaveWatchOnly (dest : CScript) (s : CBasicKeyStore) : bool :=
  bool_decide (dest ∈ setWatchOnly s).

(** [CBasicKeyStore::HaveSaplingWatchOnly] *)
Definition HaveSaplingWatchOnly (extfvk : SaplingExtendedFullViewingKey) (s : CBasicKeyStore)
    : bool :=
  bool_decide (extfvk ∈ setSaplingWatchOnly s).

(** [CBasicKeyStore::HaveWatchOnly()] *)
Definition HaveAnyWatchOnly (s : CBasicKeyStore) : bool :=
  if negb (bool_decide (setWatchOnly s = ∅)) then true
  else if negb (bool_decide (setSaplingWatchOnly s = ∅)) then true
  else false.

(** [CBasicKeyStore::AddSproutSpendingKey] *)
Definition AddSproutSpendingKey (sk : SproutSpendingKey) (s : CBasicKeyStore)
    : bool * CBasicKeyStore :=
  let address := sk_address sk in
  let s := with_mapSproutSpendingKeys (fun m => <[address := sk]> m) s in
  let s := with_mapNoteDecryptors
             (map_insert_pair address (NoteDecryption (receiving_key sk))) s in
  (true, s).

(** [CBasicKeyStore::AddSproutViewingKey] *)
Definition AddSproutViewingKey (vk : SproutViewingKey) (s : CBasicKeyStore)
    : bool * CBasicKeyStore :=
  let address := vk_address vk in
  let s := with_mapSproutViewingKeys (fun m => <[address := vk]> m) s in
  let s := with_mapNoteDecryptors (map_insert_pair address (NoteDecryption (sk_enc vk))) s in
  (true, s).

(** [CBasicKeyStore::AddSaplingIncomingViewingKey] *)
Definition AddSaplingIncomingViewingKey (ivk : SaplingIncomingViewingKey)
    (addr : SaplingPaymentAddress) (s : CBasicKeyStore) : bool * CBasicKeyStore :=
  let s := with_mapSaplingIncomingViewingKeys (fun m => <[addr := ivk]> m) s in
  let s := with_setSaplingIncomingViewingKeys (fun w => {[ivk]} ∪ w) s in
  (true, s).

(** [CBasicKeyStore::AddSaplingFullViewingKey] *)
Definition AddSaplingFullViewingKey (extfvk : SaplingExtendedFullViewingKey)
    (s : CBasicKeyStore) : bool * CBasicKeyStore :=
  let ivk := in_viewing_key extfvk in
  let s := with_mapSaplingFullViewingKeys (fun m => <[ivk := extfvk]> m) s in
  let s := with_setSaplingOutgoingViewingKeys (fun w => {[fvk_ovk extfvk]} ∪ w) s in
  AddSaplingIncomingViewingKey ivk (DefaultAddress extfvk) s.

(** [CBasicKeyStore::AddSaplingSpendingKey] *)
Definition AddSaplingSpendingKey (sk : SaplingExtendedSpendingKey) (s : CBasicKeyStore)
    : bool * CBasicKeyStore :=
  let extfvk := ToXFVK sk in
  let '(ok, s) := AddSaplingFullViewingKey extfvk s in
  if negb ok then (false, s)
  else (true, with_mapSaplingSpendingKeys (fun m => <[extfvk := sk]> m) s).

(** [CBasicKeyStore::AddSaplingDiversifiedAddess] *)
Definition AddSaplingDiversifiedAddess (addr : SaplingPaymentAddress)
    (ivk : SaplingIncomingViewingKey) (path : blob88) (s : CBasicKeyStore)
    : bool * CBasicKeyStore :=
  let dPath : DiversifierPath := (ivk, path) in
  (true, with_mapSaplingPaymentAddresses (fun m => <[addr := dPath]> m) s).

(** [CBasicKeyStore::AddLastDiversifierUsed] *)
Definition AddLastDiversifierUsed (ivk : SaplingIncomingViewingKey) (path : blob88)
    (s : CBasicKeyStore) : bool * CBasicKeyStore :=
  (true, with_mapLastDiversifierPath (fun m => <[ivk := path]> m) s).

(** [CBasicKeyStore::RemoveSproutViewingKey] *)
Definition RemoveSproutViewingKey (vk : SproutViewingKey) (s : CBasicKeyStore)
    : bool * CBasicKeyStore :=
  (true, with_mapSproutViewingKeys (fun m => delete (vk_address vk) m) s).

(** [CBasicKeyStore::HaveSproutViewingKey] *)
Definition HaveSproutViewingKey (address : SproutPaymentAddress) (s : CBasicKeyStore) : bool :=
  bool_decide (is_Some (mapSproutViewingKeys s !! address)).

(** [CBasicKeyStore::HaveSaplingFullViewingKey] *)
Definition HaveSaplingFullViewingKey (ivk : SaplingIncomingViewingKey) (s : CBasicKeyStore)
    : bool :=
  bool_decide (is_Some (mapSaplingFullViewingKeys s !! ivk)).

(** [CBasicKeyStore::HaveSaplingIncomingViewingKey] *)
Definition HaveSaplingIncomingViewingKey (addr : SaplingPaymentAddress) (s : CBasicKeyStore)
    : bool :=
  bool_decide (is_Some (mapSaplingIncomingViewingKeys s !! addr)).

(** [CBasicKeyStore::GetSproutViewingKey] *)
Definition GetSproutViewingKey (address : SproutPaymentAddress) (s : CBasicKeyStore)
    : option SproutViewingKey :=
  mapSproutViewingKeys s !! address.

(** [CBasicKeyStore::GetSaplingFullViewingKey] *)
Definition GetSaplingFullViewingKey (ivk : SaplingIncomingViewingKey) (s : CBasicKeyStore)
    : option SaplingExtendedFullViewingKey :=
  mapSaplingFullViewingKeys s !! ivk.

(** [CBasicKeyStore::GetSaplingIncomingViewingKey] *)
Definition GetSaplingIncomingViewingKey (addr : SaplingPaymentAddress) (s : CBasicKeyStore)
    : option SaplingIncomingViewingKey :=
  mapSaplingIncomingViewingKeys s !! addr.

(** Modelled from the spec: [GetSaplingSpendingKey] is defined in [keystore.h],
    which is not among the sources.  It is the last link of the composite
    lookup "addr → ivk → full-viewing-key → spending key": a lookup of the
    full viewing key in [mapSaplingSpendingKeys]. *)
Definition GetSaplingSpendingKey (extfvk : SaplingExtendedFullViewingKey) (s : CBasicKeyStore)
    : option SaplingExtendedSpendingKey :=
  mapSaplingSpendingKeys s !! extfvk.

(** [CBasicKeyStore::GetSaplingExtendedSpendingKey]: the short-circuit
    conjunction of the three lookups; [extskOut] is written by the last one
    only. *)
Definition GetSaplingExtendedSpendingKey (addr : SaplingPaymentAddress) (s : CBasicKeyStore)
    : option SaplingExtendedSpendingKey :=
  match GetSaplingIncomingViewingKey addr s with
  | None => None
  | Some ivk =>
      match GetSaplingFullViewingKey ivk s with
      | None => None
      | Some extfvk => GetSaplingSpendingKey extfvk s
      end
  end.

(** ** wallet/asyncrpcoperation_saplingconsolidation.cpp *)

(** Two's-complement values of [int] and of [CAmount] ([int64_t]). *)
Definition to_int32 (z : Z) : Z := (z + 2 ^ 31) mod 2 ^ 32 - 2 ^ 31.
Definition to_int64 (z : Z) : Z := (z + 2 ^ 63) mod 2 ^ 64 - 2 ^ 63.
Definition int_add (a b : Z) : Z := to_int32 (a + b).
Definition CAmount_add (a b : Z) : Z := to_int64 (a + b).
Definition CAmount_sub (a b : Z) : Z := to_int64 (a - b).

(** [const int CONSOLIDATION_EXPIRY_DELTA = 40;] *)
Definition CONSOLIDATION_EXPIRY_DELTA : Z := 40.

(** [OperationStatus] of the base class [AsyncRPCOperation]. *)
Inductive OperationStatus := READY | EXECUTING | CANCELLED | FAILED | SUCCESS.

#[global] Instance OperationStatus_eq : EqDecision OperationStatus.
Proof. solve_decision. Defined.

(** [SaplingNoteEntry]: the fields the job reads. *)
Record SaplingNoteEntry := mkNoteEntry {
  op : SaplingOutPoint;
  address : SaplingPaymentAddress;
  note : SaplingNote;
}.

(** The result of [DecodePaymentAddress]: a variant of an invalid encoding, a
    Sprout address and a Sapling address. *)
Inductive PaymentAddress :=
  | InvalidEncoding
  | SproutAddress (a : SproutPaymentAddress)
  | SaplingAddress (a : SaplingPaymentAddress).

(** [TransactionBuilder]: what the job has configured on it so far.  The
    class is a collaborator; its setters record their arguments and [Build]
    is a function of the recorded configuration. *)
Record SpendDescriptionInfo := mkSpend {
  spend_expsk : SaplingExpandedSpendingKey;
  spend_note : SaplingNote;
  spend_anchor : uint256;
  spend_witness : SaplingWitness;
}.

Record OutputDescriptionInfo := mkOutput {
  output_ovk : uint256;
  output_to : SaplingPaymentAddress;
  output_value : Z;
}.

Record TransactionBuilder := mkBuilder {
  nHeight : Z;
  expiryHeight : option Z;
  fee : option Z;
  spends : list SpendDescriptionInfo;
  outputs : list OutputDescriptionInfo;
}.

(** [TransactionBuilder(consensusParams, targetHeight_, pwalletMain)] *)
Definition newTransactionBuilder (targetHeight : Z) : TransactionBuilder :=
  mkBuilder targetHeight None None [] [].

Definition SetExpiryHeight (h : Z) (b : TransactionBuilder) : TransactionBuilder :=
  mkBuilder (nHeight b) (Some h) (fee b) (spends b) (outputs b).

Definition SetFee (f : Z) (b : TransactionBuilder) : TransactionBuilder :=
  mkBuilder (nHeight b) (expiryHeight b) (Some f) (spends b) (outputs b).

Definition AddSaplingSpend (k : SaplingExpandedSpendingKey) (n : SaplingNote)
    (anchor : uint256) (w : SaplingWitness) (b : TransactionBuilder) : TransactionBuilder :=
  mkBuilder (nHeight b) (expiryHeight b) (fee b) (spends b ++ [mkSpend k n anchor w])
    (outputs b).

Definition AddSaplingOutput (ovk : uint256) (to : SaplingPaymentAddress) (value : Z)
    (b : TransactionBuilder) : TransactionBuilder :=
  mkBuilder (nHeight b) (expiryHeight b) (fee b) (spends b)
    (outputs b ++ [mkOutput ovk to value]).

(** The places of a run where a call of [cancel()] by another thread is
    taken into account: the three blocks that take [cs_main] and the wallet
    lock (note enumeration, reading the tip for the expiry height of an
    address's transaction, witness retrieval for an address). *)
Inductive YieldPoint :=
  | AtNoteEnumeration
  | AtExpiryHeight (addr : SaplingPaymentAddress)
  | AtWitnessRetrieval (addr : SaplingPaymentAddress).

(** The collaborators of one run: configuration, chain and wallet reads, the
    transaction builder, the random source and the other threads. *)
Record Env := mkEnv {
  targetHeight_ : Z;
  NextActivationHeight : Z -> option Z;
  GetFilteredNotes : Z -> list SaplingNoteEntry;      (* the Sapling entries, by minDepth *)
  fConsolidationMapUsed : bool;
  consolidatesaplingaddress : list string;   (* mapMultiArgs["-consolidatesaplingaddress"] *)
  DecodePaymentAddress : string -> PaymentAddress;
  fConsolidationTxFee : Z;
  targetConsolidationQty : Z;
  initializeConsolidationInterval : Z;
  tipHeight : Z;                             (* chainActive.Tip()->GetHeight() *)
  GetSaplingNoteWitnesses : list SaplingOutPoint -> list (option SaplingWitness) * uint256;
  Build : TransactionBuilder -> option CTransaction;
  rand : nat -> nat;                         (* the n-th value returned by rand() *)
  keystore : CBasicKeyStore;                 (* the key store of pwalletMain *)
  cancel_at : YieldPoint -> bool;
}.

(** The value passed to [setConsolidationResult]. *)
Record ConsolidationResult := mkResult {
  num_tx_created : Z;
  amount_consolidated : Z;
  consolidation_txids : list string;
}.

(** What a run reads and writes: the operation's own fields, the wallet's
    scheduling fields, the transactions handed to [CommitAutomatedTx] (oldest
    first) and the number of calls of [rand()] so far. *)
Record JobState := mkJob {
  state_ : OperationStatus;
  error_code : Z;
  error_message : string;
  result_ : option ConsolidationResult;
  nextConsolidation : Z;
  fConsolidationRunning : bool;
  committed : list CTransaction;
  rand_calls : nat;
}.

(** Modelled from the spec: the base class [AsyncRPCOperation] is not among the
    sources.  Its state is a stored field: [set_state] overwrites it ("state
    becomes Success"), [isCancelled] compares it with [CANCELLED]. *)
Definition set_state (o : OperationStatus) (st : JobState) : JobState :=
  mkJob o (error_code st) (error_message st) (result_ st) (nextConsolidation st)
    (fConsolidationRunning st) (committed st) (rand_calls st).

Definition isCancelled (st : JobState) : bool := bool_decide (state_ st = CANCELLED).

Definition set_error_code (c : Z) (st : JobState) : JobState :=
  mkJob (state_ st) c (error_message st) (result_ st) (nextConsolidation st)
    (fConsolidationRunning st) (committed st) (rand_calls st).

Definition set_error_message (m : string) (st : JobState) : JobState :=
  mkJob (state_ st) (error_code st) m (result_ st) (nextConsolidation st)
    (fConsolidationRunning st) (committed st) (rand_calls st).

Definition set_result (r : ConsolidationResult) (st : JobState) : JobState :=
  mkJob (state_ st) (error_code st) (error_message st) (Some r) (nextConsolidation st)
    (fConsolidationRunning st) (committed st) (rand_calls st).

(** [AsyncRPCOperation_saplingconsolidation::cancel] *)
Definition cancel (st : JobState) : JobState := set_state CANCELLED st.

(** [AsyncRPCOperation_saplingconsolidation::setConsolidationResult] *)
Definition setConsolidationResult (numTxCreated amountConsolidated : Z)
    (consolidationTxIds : list string) (st : JobState) : JobState :=
  set_result (mkResult numTxCreated amountConsolidated consolidationTxIds) st.

(** [pwalletMain->CommitAutomatedTx(tx)] *)
Definition CommitAutomatedTx (tx : CTransaction) (st : JobState) : JobState :=
  mkJob (state_ st) (error_code st) (error_message st) (result_ st) (nextConsolidation st)
    (fConsolidationRunning st) (committed st ++ [tx]) (rand_calls st).

(** The two assignments of lines 242-243. *)
Definition mark_complete (e : Env) (st : JobState) : JobState :=
  mkJob (state_ st) (error_code st) (error_message st) (result_ st)
    (int_add (initializeConsolidationInterval e) (tipHeight e)) false
    (committed st) (rand_calls st).

(** [rand()]: the next value of the random source. *)
Definition next_rand (e : Env) (st : JobState) : nat * JobState :=
  (rand e (rand_calls st),
   mkJob (state_ st) (error_code st) (error_message st) (result_ st) (nextConsolidation st)
     (fConsolidationRunning st) (committed st) (S (rand_calls st))).

(** A call of [cancel()] by another thread, if one is scheduled here. *)
Definition yield (e : Env) (y : YieldPoint) (st : JobState) : JobState :=
  if cancel_at e y then cancel st else st.

(** Lines 92-101: the allow-list as a set of Sapling addresses. *)
Definition allow_list (e : Env) : gset SaplingPaymentAddress :=
  if fConsolidationMapUsed e then
    fold_left (fun addresses v =>
                 match DecodePaymentAddress e v with
                 | SaplingAddress saplingAddress => {[saplingAddress]} ∪ addresses
                 | _ => addresses
                 end)
              (consolidatesaplingaddress e) ∅
  else ∅.

(** [std::map<SaplingPaymentAddress, std::vector<SaplingNoteEntry>>] as the
    list of its pairs in iteration order (increasing keys). *)
Definition AddressMap : Type := list (SaplingPaymentAddress * list SaplingNoteEntry).

(** [mapAddresses.find(k)] *)
Fixpoint map_find (k : SaplingPaymentAddress) (m : AddressMap) : option (list SaplingNoteEntry) :=
  match m with
  | [] => None
  | (k', v) :: m' => if decide (k' = k) then Some v else map_find k m'
  end.

(** [it->second.push_back(entry)] at the key [k] *)
Fixpoint map_push_back (k : SaplingPaymentAddress) (entry : SaplingNoteEntry) (m : AddressMap)
    : AddressMap :=
  match m with
  | [] => []
  | (k', v) :: m' =>
      if decide (k' = k) then (k', v ++ [entry]) :: m'
      else (k', v) :: map_push_back k entry m'
  end.

(** [mapAddresses[k] = entries] for a key that is not in the map *)
Fixpoint map_insert_new (k : SaplingPaymentAddress) (entries : list SaplingNoteEntry)
    (m : AddressMap) : AddressMap :=
  match m with
  | [] => [(k, entries)]
  | (k', v) :: m' =>
      if addr_lt k k' then (k, entries) :: m
      else (k', v) :: map_insert_new k entries m'
  end.

(** Lines 103-116: map all notes by address. *)
Definition group_by_address (e : Env) (saplingEntries : list SaplingNoteEntry) : AddressMap :=
  fold_left (fun mapAddresses entry =>
               if bool_decide (address entry ∈ allow_list e) || negb (fConsolidationMapUsed e)
               then match map_find (address entry) mapAddresses with
                    | Some _ => map_push_back (address entry) entry mapAddresses
                    | None => map_insert_new (address entry) [entry] mapAddresses
                    end
               else mapAddresses)
            saplingEntries [].

(** The test of lines 144 and 163.  [ivk] is default-constructed and left as
    it is when [GetSaplingIncomingViewingKey] fails. *)
Definition note_selected (e : Env) (extsk : SaplingExtendedSpendingKey)
    (addr : SaplingPaymentAddress) (saplingEntry : SaplingNoteEntry) : bool :=
  let ivk := match GetSaplingIncomingViewingKey (address saplingEntry) (keystore e) with
             | Some ivk => ivk
             | None => ivk_default
             end in
  bool_decide (ivk = expsk_in_viewing_key (expsk extsk))
  && bool_decide (address saplingEntry = addr).

(** Lines 138-147: count the notes available for this address. *)
Definition count_notes (e : Env) (extsk : SaplingExtendedSpendingKey)
    (addr : SaplingPaymentAddress) (saplingEntries : list SaplingNoteEntry) : Z :=
  fold_left (fun noteCount saplingEntry =>
               if note_selected e extsk addr saplingEntry then noteCount + 1 else noteCount)
            saplingEntries 0.

(** Lines 157-172: select notes, at most [maxQuantity] of them. *)
Fixpoint select_notes (e : Env) (extsk : SaplingExtendedSpendingKey)
    (addr : SaplingPaymentAddress) (maxQuantity : nat) (saplingEntries : list SaplingNoteEntry)
    (amountToSend : Z) (fromNotes : list SaplingNoteEntry) : Z * list SaplingNoteEntry :=
  match saplingEntries with
  | [] => (amountToSend, fromNotes)
  | saplingEntry :: rest =>
      let '(amountToSend, fromNotes) :=
        if note_selected e extsk addr saplingEntry
        then (CAmount_add amountToSend (to_int64 (note_value (note saplingEntry))),
              fromNotes ++ [saplingEntry])
        else (amountToSend, fromNotes) in
      if (maxQuantity <=? length fromNotes)%nat then (amountToSend, fromNotes)
      else select_notes e extsk addr maxQuantity rest amountToSend fromNotes
  end.

(** Lines 208-214: add the Sapling spends; [i] is the index of the first of
    [notes].  The loop is left at the first missing witness.  (The wallet
    sizes [witnesses] like [ops]; an index past its end counts as a missing
    witness.) *)
Fixpoint add_spends (k : SaplingExpandedSpendingKey) (anchor : uint256)
    (witnesses : list (option SaplingWitness)) (notes : list SaplingNote) (i : nat)
    (builder : TransactionBuilder) : TransactionBuilder :=
  match notes with
  | [] => builder
  | n :: rest =>
      match witnesses !! i with
      | Some (Some w) =>
          add_spends k anchor witnesses rest (S i) (AddSaplingSpend k n anchor w builder)
      | _ => builder
      end
  end.

(** The variables declared before the loop over the addresses (lines 119-123). *)
Record Locals := mkLocals {
  numTxCreated : Z;
  consolidationTxIds : list string;
  amountConsolidated : Z;
  consolidationComplete : bool;
}.

(** How an iteration of the loop over the addresses ends. *)
Inductive Control := Continue | Break.

(** The builder of lines 184-218 for the notes [fromNotes] worth
    [amountToSend], as it is when [Build] is called. *)
Definition configure_builder (e : Env) (extsk : SaplingExtendedSpendingKey)
    (addr : SaplingPaymentAddress) (fromNotes : list SaplingNoteEntry)
    (amountToSend fee : Z) : TransactionBuilder :=
  let builder := newTransactionBuilder (targetHeight_ e) in
  let builder := SetExpiryHeight (int_add (tipHeight e) CONSOLIDATION_EXPIRY_DELTA) builder in
  let ops := map op fromNotes in
  let notes := map note fromNotes in
  let '(witnesses, anchor) := GetSaplingNoteWitnesses e ops in
  let builder := add_spends (expsk extsk) anchor witnesses notes 0 builder in
  let builder := SetFee fee builder in
  AddSaplingOutput (expsk_ovk (expsk extsk)) addr (CAmount_sub amountToSend fee) builder.

(** Lines 179-182 *)
Definition consolidation_fee (e : Env) (amountToSend : Z) : Z :=
  if amountToSend <=? fConsolidationTxFee e then 0 else fConsolidationTxFee e.

(** Lines 126-238: the body of the loop over the addresses. *)
Definition consolidate_address (e : Env) (addr : SaplingPaymentAddress)
    (saplingEntries : list SaplingNoteEntry) (l : Locals) (st : JobState)
    : Control * Locals * JobState :=
  match GetSaplingExtendedSpendingKey addr (keystore e) with
  | None => (Continue, l, st)
  | Some extsk =>
      let '(r, st) := next_rand e st in
      let maxQuantity := (r mod 35 + 10)%nat in
      let targetCount := targetConsolidationQty e in
      let noteCount := count_notes e extsk addr saplingEntries in
      if noteCount <? targetCount then (Continue, l, st)
      else
        let l := mkLocals (numTxCreated l) (consolidationTxIds l) (amountConsolidated l) false in
        let '(amountToSend, fromNotes) :=
          select_notes e extsk addr maxQuantity saplingEntries 0 [] in
        let '(r, st) := next_rand e st in
        let minQuantity := (r mod 10 + 2)%nat in
        if (length fromNotes <? minQuantity)%nat then (Continue, l, st)
        else
          let fee := consolidation_fee e amountToSend in
          let l := mkLocals (numTxCreated l) (consolidationTxIds l)
                     (CAmount_add (amountConsolidated l) amountToSend)
                     (consolidationComplete l) in
          let st := yield e (AtExpiryHeight addr) st in
          let st := yield e (AtWitnessRetrieval addr) st in
          let builder := configure_builder e extsk addr fromNotes amountToSend fee in
          match Build e builder with
          | None => (Break, l, st)
          | Some tx =>
              if isCancelled st then (Break, l, st)
              else
                let st := CommitAutomatedTx tx st in
                let l := mkLocals (numTxCreated l)
                           (consolidationTxIds l ++ [GetHashString tx])
                           (CAmount_add (amountConsolidated l) (CAmount_sub amountToSend fee))
                           (consolidationComplete l) in
                (Continue, l, st)
          end
  end.

(** Lines 125-239: the loop over [mapAddresses]. *)
Fixpoint consolidate_addresses (e : Env) (mapAddresses : AddressMap) (l : Locals)
    (st : JobState) : Locals * JobState :=
  match mapAddresses with
  | [] => (l, st)
  | (addr, saplingEntries) :: rest =>
      match consolidate_address e addr saplingEntries l st with
      | (Continue, l, st) => consolidate_addresses e rest l st
      | (Break, l, st) => (l, st)
      end
  end.

(** The test of line 76. *)
Definition too_close_to_activation (e : Env) : bool :=
  match NextActivationHeight e (targetHeight_ e) with
  | Some nextActivationHeight =>
      nextActivationHeight <=? int_add (targetHeight_ e) CONSOLIDATION_EXPIRY_DELTA
  | None => false
  end.

(** Lines 86-117: the notes of the wallet at depth 11, grouped by address. *)
Definition collect_notes (e : Env) : AddressMap :=
  group_by_address e (GetFilteredNotes e 11).

(** [AsyncRPCOperation_saplingconsolidation::main_impl]; the returned flag is
    its return value. *)
Definition main_impl (e : Env) (st : JobState) : bool * JobState :=
  if too_close_to_activation e then (true, setConsolidationResult 0 0 [] st)
  else
    let st := yield e AtNoteEnumeration st in
    let mapAddresses := collect_notes e in
    let '(l, st) := consolidate_addresses e mapAddresses (mkLocals 0 [] 0 true) st in
    let st := if consolidationComplete l then mark_complete e st else st in
    (true, setConsolidationResult (numTxCreated l) (amountConsolidated l)
             (consolidationTxIds l) st).

(** What the [try] block of [main] ends with: [main_impl] returned, or one of
    the exceptions [main] catches was thrown. *)
Inductive Exception :=
  | UniValueError (code : Z) (message : string)
  | runtime_error (what : string)
  | logic_error (what : string)
  | std_exception (what : string)
  | unknown_exception.

(** The [catch] clauses of [main]. *)
Definition catch_exception (x : Exception) (st : JobState) : JobState :=
  match x with
  | UniValueError code message => set_error_message message (set_error_code code st)
  | runtime_error what => set_error_message ("runtime error: " ++ what) (set_error_code (-1) st)
  | logic_error what => set_error_message ("logic error: " ++ what) (set_error_code (-1) st)
  | std_exception what =>
      set_error_message ("general exception: " ++ what) (set_error_code (-1) st)
  | unknown_exception => set_error_message "unknown error" (set_error_code (-2) st)
  end.

(** Lines 54-60 of [main], after the [try] block. *)
Definition finish (success : bool) (st : JobState) : JobState :=
  if success then set_state SUCCESS st else set_state FAILED st.

(** Lines 31-60 of [main] once the [try] block has ended: [success] is [false]
    unless [main_impl] returned [true]. *)
Definition after_try (r : Exception + bool) (st : JobState) : JobState :=
  match r with
  | inr success => finish success st
  | inl x => finish false (catch_exception x st)
  end.

(** [AsyncRPCOperation_saplingconsolidation::main].  The collaborators of
    [Env] are total functions, so the [try] block ends with [main_impl]
    returning; the execution clock and the log are not modelled. *)
Definition main (e : Env) (st : JobState) : JobState :=
  if isCancelled st then st
  else
    let st := set_state EXECUTING st in
    let '(success, st) := main_impl e st in
    after_try (inr success) st.

(** ** The steps of the execution protocol

    What becomes of an address in the loop, in the words of the protocol: no
    spending key for it, skipped for being below the target count (step 4b),
    skipped for being below the random minimum (step 4c), or processed past
    both skips.  [n] is the number of calls of [rand()] before the address. *)
Inductive Disposition := NoSpendingKey | BelowTarget | BelowMinimum | PastBothSkips.

Definition disposition (e : Env) (addr : SaplingPaymentAddress)
    (saplingEntries : list SaplingNoteEntry) (n : nat) : Disposition :=
  match GetSaplingExtendedSpendingKey addr (keystore e) with
  | None => NoSpendingKey
  | Some extsk =>
      if count_notes e extsk addr saplingEntries <? targetConsolidationQty e then BelowTarget
      else
        let fromNotes :=
          snd (select_notes e extsk addr (rand e n mod 35 + 10)%nat saplingEntries 0 []) in
        if (length fromNotes <? rand e (S n) mod 10 + 2)%nat then BelowMinimum
        else PastBothSkips
  end.

(** Every address with a spending key is skipped at step 4b or at step 4c. *)
Fixpoint all_skipped (e : Env) (mapAddresses : AddressMap) (n : nat) : bool :=
  match mapAddresses with
  | [] => true
  | (addr, saplingEntries) :: rest =>
      match disposition e addr saplingEntries n with
      | NoSpendingKey => all_skipped e rest n
      | BelowTarget => all_skipped e rest (S n)
      | BelowMinimum => all_skipped e rest (S (S n))
      | PastBothSkips => false
      end
  end.

(** The address has a spending key and at least the target count of notes. *)
Definition reaches_target (e : Env) (g : SaplingPaymentAddress * list SaplingNoteEntry) : bool :=
  match GetSaplingExtendedSpendingKey (fst g) (keystore e) with
  | None => false
  | Some extsk => negb (count_notes e extsk (fst g) (snd g) <? targetConsolidationQty e)
  end.

(** The run that led from [st] to [st'] has marked itself complete: the next
    consolidation is scheduled and the running flag is cleared. *)
Definition marked_complete (e : Env) (st' : JobState) : Prop :=
  nextConsolidation st' = int_add (initializeConsolidationInterval e) (tipHeight e)
  /\ fConsolidationRunning st' = false.

(** The run has left the schedule and the running flag of [st] as they were. *)
Definition schedule_untouched (st st' : JobState) : Prop :=
  nextConsolidation st' = nextConsolidation st
  /\ fConsolidationRunning st' = fConsolidationRunning st.

(** The empty key store holding the seed [seed]. *)
Definition empty_keystore (seed : HDSeed) : CBasicKeyStore :=
  mkKeyStore ∅ ∅ ∅ ∅ seed ∅ ∅ ∅ ∅ ∅ ∅ ∅ ∅ ∅ ∅.

(** A new operation for a wallet whose consolidation is running. *)
Definition new_job (nextConsolidation : Z) : JobState :=
  mkJob READY 0 "" None nextConsolidation true [] 0.

(** The sum of the values of a list of notes. *)
Definition sum_values (entries : list SaplingNoteEntry) : Z :=
  fold_right (fun entry acc => note_value (note entry) + acc) 0 entries.

(** ** Views of the store used by the properties *)

(** The members guarded by [cs_KeyStore]. *)
Definition transparent_members (s : CBasicKeyStore)
    : gmap CKeyID CKey * gmap CScriptID CScript * gset CScript
      * gset SaplingExtendedFullViewingKey :=
  (mapKeys s, mapScripts s, setWatchOnly s, setSaplingWatchOnly s).

(** The Sapling members guarded by [cs_SpendingKeyStore] that the lookups of
    spending authority read. *)
Definition sapling_key_members (s : CBasicKeyStore)
    : gmap SaplingExtendedFullViewingKey SaplingExtendedSpendingKey
      * gmap SaplingIncomingViewingKey SaplingExtendedFullViewingKey
      * gmap SaplingPaymentAddress SaplingIncomingViewingKey :=
  (mapSaplingSpendingKeys s, mapSaplingFullViewingKeys s, mapSaplingIncomingViewingKeys s).

(** A wallet adding the spending keys [sks] one after the other. *)
Definition add_spending_keys (sks : list SaplingExtendedSpendingKey) (s : CBasicKeyStore)
    : CBasicKeyStore :=
  fold_left (fun s sk => snd (AddSaplingSpendingKey sk s)) sks s.

(** Every spending key of the store is reached from the default address of
    its full viewing key. *)
Definition spending_keys_reachable (s : CBasicKeyStore) : Prop :=
  forall extfvk sk,
    mapSaplingSpendingKeys s !! extfvk = Some sk ->
    mapSaplingFullViewingKeys s !! in_viewing_key extfvk = Some extfvk
    /\ mapSaplingIncomingViewingKeys s !! DefaultAddress extfvk = Some (in_viewing_key extfvk).

(** All the members guarded by [cs_SpendingKeyStore]. *)
Definition shielded_members (s : CBasicKeyStore) :=
  (hdSeed s, mapSproutSpendingKeys s, mapSproutViewingKeys s, mapNoteDecryptors s,
   sapling_key_members s, setSaplingOutgoingViewingKeys s, setSaplingIncomingViewingKeys s,
   mapSaplingPaymentAddresses s, mapLastDiversifierPath s).

(** The test of line 105: the note's address is on the allow-list, or no
    allow-list is in use. *)
Definition note_accepted (e : Env) (entry : SaplingNoteEntry) : bool :=
  bool_decide (address entry ∈ allow_list e) || negb (fConsolidationMapUsed e).

(** The accepted notes of the address [a], in the order of the wallet. *)
Definition notes_of (e : Env) (a : SaplingPaymentAddress)
    (saplingEntries : list SaplingNoteEntry) : list SaplingNoteEntry :=
  filter (fun entry => address entry = a)
         (filter (fun entry => note_accepted e entry = true) saplingEntries).

(** The notes of a group that pass the test of lines 144 and 163. *)
Definition selectable (e : Env) (extsk : SaplingExtendedSpendingKey)
    (addr : SaplingPaymentAddress) (saplingEntries : list SaplingNoteEntry)
    : list SaplingNoteEntry :=
  filter (fun entry => note_selected e extsk addr entry = true) saplingEntries.

(** One step of the loop of lines 103-116. *)
Definition group_step (e : Env) (mapAddresses : AddressMap) (entry : SaplingNoteEntry)
    : AddressMap :=
  if bool_decide (address entry ∈ allow_list e) || negb (fConsolidationMapUsed e)
  then match map_find (address entry) mapAddresses with
       | Some _ => map_push_back (address entry) entry mapAddresses
       | None => map_insert_new (address entry) [entry] mapAddresses
       end
  else mapAddresses.

End Definitions.

(** ** A small instance

    Keys, addresses and out-points are numbers; a note is its value; a
    transaction is what its builder was given: the values of the notes spent,
    the value of the output and the fee. *)
Module Small.

Definition Tx : Type := list Z * Z * Z.

#[local] Instance prim : Primitives := {|
  CKeyID := N; CKey := N; CPubKey := N;
  GetPubKey := fun k => (k + 1)%N; GetID := fun k => (k + 2)%N;
  CScriptID := N; CScript := N;
  ScriptID := fun c => (c + 3)%N; script_size := fun c => Z.of_N c;
  MAX_SCRIPT_ELEMENT_SIZE := 520;
  HDSeed := list N;
  IsNull := fun seed => match seed with [] => true | _ => false end;
  SproutPaymentAddress := N; SproutSpendingKey := N; SproutViewingKey := N;
  ReceivingKey := N; ZCNoteDecryption := N;
  sk_address := fun k => (k + 10)%N; receiving_key := fun k => (k + 20)%N;
  vk_address := fun k => (k + 5)%N; sk_enc := fun k => (k + 15)%N;
  NoteDecryption := fun k => (2 * k)%N;
  uint256 := N; blob88 := N;
  SaplingPaymentAddress := N; SaplingIncomingViewingKey := N;
  SaplingExtendedFullViewingKey := N; SaplingExtendedSpendingKey := N;
  ToXFVK := fun sk => (sk + 100)%N;
  in_viewing_key := fun fvk => (fvk + 100)%N;
  fvk_ovk := fun fvk => (fvk + 50)%N;
  DefaultAddress := fun fvk => (fvk + 200)%N;
  ivk_default := 0%N;
  SaplingExpandedSpendingKey := N;
  expsk := fun sk => (sk + 1)%N;
  expsk_in_viewing_key := fun k => (k + 199)%N;
  expsk_ovk := fun k => (k + 149)%N;
  addr_lt := N.ltb;
  SaplingOutPoint := N; SaplingNote := Z; note_value := fun n => n;
  SaplingWitness := N;
  CTransaction := Tx;
  GetHashString := fun tx => String.append "tx" (pretty (length (fst (fst tx))));
|}.

(** A key store holding the spending key [7]: its full viewing key is
    [107], its incoming viewing key [207], its default address [307]. *)
Definition wallet_keys : CBasicKeyStore :=
  snd (@AddSaplingSpendingKey prim 7%N (@empty_keystore prim [])).

(** Two notes of the address [307], worth 60000 and 70000. *)
Definition two_notes : list SaplingNoteEntry :=
  [@mkNoteEntry prim 1%N 307%N 60000; @mkNoteEntry prim 2%N 307%N 70000].

(** A witness service that knows every out-point, and one that misses the
    out-point [2]. *)
Definition all_witnesses (ops : list N) : list (option N) * N :=
  (map (fun o => Some o) ops, 99%N).

Definition witness_2_missing (ops : list N) : list (option N) * N :=
  (map (fun o => if decide (o = 2%N) then None else Some o) ops, 99%N).

(** A builder that builds whatever it was given, and one that fails. *)
Definition build_any (b : @TransactionBuilder prim) : option Tx :=
  Some (map (@spend_note prim) (spends b),
        match outputs b with o :: _ => output_value o | [] => 0 end,
        match fee b with Some f => f | None => 0 end).

Definition build_none (b : @TransactionBuilder prim) : option Tx := None.

(** No call of [cancel()], and one before the witnesses of [307] are fetched. *)
Definition no_cancel (y : @YieldPoint prim) : bool := false.

Definition cancel_before_witnesses (y : @YieldPoint prim) : bool :=
  match y with
  | AtWitnessRetrieval a => bool_decide (a = 307%N)
  | _ => false
  end.

(** A wallet with the key [7] and the notes [notes], at tip height 990, with
    fee 10000, target count 2 and consolidation interval 5; no allow-list and
    no activation in sight. *)
Definition env (notes : list SaplingNoteEntry)
    (witnesses : list N -> list (option N) * N)
    (build : @TransactionBuilder prim -> option Tx)
    (rnd : nat -> nat) (cancels : @YieldPoint prim -> bool) : Env :=
  @mkEnv prim 1000 (fun _ => None) (fun _ => notes) false [] (fun _ => InvalidEncoding)
    10000 2 5 990 witnesses build rnd wallet_keys cancels.

(** [rand()] returns 0 every time: at most 10 notes, at least 2. *)
Definition rand_zero (n : nat) : nat := 0%nat.

(** [rand()] returns 0, then 9: at most 10 notes, at least 11. *)
Definition rand_zero_nine (n : nat) : nat := match n with O => 0%nat | _ => 9%nat end.

(** One note of the address [307]. *)
Definition one_note : list SaplingNoteEntry := [@mkNoteEntry prim 1%N 307%N 60000].

(** Notes of two addresses, not in the order of the addresses. *)
Definition mixed_notes : list SaplingNoteEntry :=
  [@mkNoteEntry prim 1%N 400%N 5; @mkNoteEntry prim 2%N 307%N 60000;
   @mkNoteEntry prim 3%N 400%N 6; @mkNoteEntry prim 4%N 307%N 70000].


(** The wallet of [env] with an activation scheduled at height 1040, 40 blocks
    after the target height. *)
Definition env_near_activation : Env :=
  @mkEnv prim 1000 (fun _ => Some 1040) (fun _ => two_notes) false [] (fun _ => InvalidEncoding)
    10000 2 5 990 all_witnesses build_any rand_zero wallet_keys no_cancel.

(** The wallet of [env] with the allow-list ["z307"; "junk"], of which the first
    string decodes to the address [307]. *)
Definition decode (v : string) : @PaymentAddress prim :=
  if String.eqb v "z307" then SaplingAddress 307%N else InvalidEncoding.

Definition env_allow_list (notes : list SaplingNoteEntry) : Env :=
  @mkEnv prim 1000 (fun _ => None) (fun _ => notes) true ["z307"; "junk"]%string decode
    10000 2 5 990 all_witnesses build_any rand_zero wallet_keys no_cancel.

End Small.

(** * Properties *)

Section KeyStoreProperties.
Context `{Primitives}.

(** ** The key store *)

Lemma AddSaplingIncomingViewingKey_lookup (ivk : SaplingIncomingViewingKey)
    (addr a : SaplingPaymentAddress) (s : CBasicKeyStore) :
  GetSaplingIncomingViewingKey a (snd (AddSaplingIncomingViewingKey ivk addr s))
  = if decide (addr = a) then Some ivk else GetSaplingIncomingViewingKey a s.
Proof.
  unfold GetSaplingIncomingViewingKey, AddSaplingIncomingViewingKey; simpl.
  apply lookup_insert.
Qed.

(** The second of two additions for one address decides the stored key. *)
Lemma AddSaplingIncomingViewingKey_last_wins (ivk ivk2 : SaplingIncomingViewingKey)
    (a : SaplingPaymentAddress) (s : CBasicKeyStore) :
  let r1 := AddSaplingIncomingViewingKey ivk a s in
  let r2 := AddSaplingIncomingViewingKey ivk2 a (snd r1) in
  fst r1 = true /\ fst r2 = true /\ GetSaplingIncomingViewingKey a (snd r2) = Some ivk2.
Proof.
  intros r1 r2. repeat split.
  subst r2. rewrite AddSaplingIncomingViewingKey_lookup.
  destruct (decide (a = a)); congruence.
Qed.

(** [AddSaplingFullViewingKey] and [AddSaplingSpendingKey] always succeed. *)
Lemma AddSaplingFullViewingKey_true (extfvk : SaplingExtendedFullViewingKey)
    (s : CBasicKeyStore) :
  fst (AddSaplingFullViewingKey extfvk s) = true.
Proof. reflexivity. Qed.

Lemma AddSaplingSpendingKey_true (sk : SaplingExtendedSpendingKey) (s : CBasicKeyStore) :
  fst (AddSaplingSpendingKey sk s) = true.
Proof. reflexivity. Qed.

(** The three maps after [AddSaplingSpendingKey]. *)
Lemma AddSaplingSpendingKey_maps (sk : SaplingExtendedSpendingKey) (s : CBasicKeyStore) :
  let extfvk := ToXFVK sk in
  let ivk := in_viewing_key extfvk in
  let s' := snd (AddSaplingSpendingKey sk s) in
  mapSaplingIncomingViewingKeys s' = <[DefaultAddress extfvk := ivk]> (mapSaplingIncomingViewingKeys s)
  /\ mapSaplingFullViewingKeys s' = <[ivk := extfvk]> (mapSaplingFullViewingKeys s)
  /\ mapSaplingSpendingKeys s' = <[extfvk := sk]> (mapSaplingSpendingKeys s).
Proof. repeat split. Qed.

(** C8: the composite lookup fails when the address has no incoming viewing
    key, when that key has no full viewing key, and when that full viewing key
    has no spending key; after [AddSaplingSpendingKey sk] the addition has
    succeeded and the lookup of the default address of [sk] returns [sk]. *)
Theorem GetSaplingExtendedSpendingKey_links_and_roundtrip
    (s : CBasicKeyStore) (addr : SaplingPaymentAddress) (sk : SaplingExtendedSpendingKey) :
  (mapSaplingIncomingViewingKeys s !! addr = None ->
   GetSaplingExtendedSpendingKey addr s = None)
  /\ (forall ivk,
        mapSaplingIncomingViewingKeys s !! addr = Some ivk ->
        mapSaplingFullViewingKeys s !! ivk = None ->
        GetSaplingExtendedSpendingKey addr s = None)
  /\ (forall ivk extfvk,
        mapSaplingIncomingViewingKeys s !! addr = Some ivk ->
        mapSaplingFullViewingKeys s !! ivk = Some extfvk ->
        mapSaplingSpendingKeys s !! extfvk = None ->
        GetSaplingExtendedSpendingKey addr s = None)
  /\ (fst (AddSaplingSpendingKey sk s) = true
      /\ GetSaplingExtendedSpendingKey (DefaultAddress (ToXFVK sk))
           (snd (AddSaplingSpendingKey sk s)) = Some sk).
Proof.
  unfold GetSaplingExtendedSpendingKey, GetSaplingIncomingViewingKey,
    GetSaplingFullViewingKey, GetSaplingSpendingKey.
  split; [| split; [| split; [| split]]].
  - intros ->. reflexivity.
  - intros ivk -> ->. reflexivity.
  - intros ivk extfvk -> -> ->. reflexivity.
  - apply AddSaplingSpendingKey_true.
  - destruct (AddSaplingSpendingKey_maps sk s) as (-> & -> & ->).
    rewrite !lookup_insert_eq. reflexivity.
Qed.

(** C9: once [SetHDSeed s1] has succeeded, [SetHDSeed s2] returns [false] and
    leaves the store as it is, and [GetHDSeed] returns [s1], before and after
    the second call. *)
Theorem SetHDSeed_write_once (s1 s2 : HDSeed) (s s' : CBasicKeyStore) :
  IsNull s1 = false ->
  IsNull s2 = false ->
  SetHDSeed s1 s = (true, s') ->
  SetHDSeed s2 s' = (false, s')
  /\ GetHDSeed s' = Some s1
  /\ GetHDSeed (snd (SetHDSeed s2 s')) = Some s1.
Proof.
  intros Hs1 _ Hset. unfold SetHDSeed in Hset.
  destruct (IsNull (hdSeed s)) eqn:Hnull; simpl in Hset; [| discriminate].
  injection Hset as <-.
  assert (Hget : GetHDSeed (with_hdSeed s1 s) = Some s1).
  { unfold GetHDSeed; simpl. rewrite Hs1. reflexivity. }
  assert (Hsnd : SetHDSeed s2 (with_hdSeed s1 s) = (false, with_hdSeed s1 s)).
  { unfold SetHDSeed; simpl. rewrite Hs1. reflexivity. }
  rewrite Hsnd. auto.
Qed.

(** C10: [RemoveSproutViewingKey vk] deletes the entry of the address of [vk]
    from [mapSproutViewingKeys] and leaves every other member of the store as
    it is, [mapNoteDecryptors] included; the note decryptor that
    [AddSproutViewingKey vk] or [AddSproutSpendingKey sk] (for a key [sk] of
    the same address) has left for the address is still there after the
    removal. *)
Theorem RemoveSproutViewingKey_frame (vk : SproutViewingKey) (s : CBasicKeyStore) :
  let s' := snd (RemoveSproutViewingKey vk s) in
  (fst (RemoveSproutViewingKey vk s) = true
   /\ mapSproutViewingKeys s' = delete (vk_address vk) (mapSproutViewingKeys s)
   /\ mapNoteDecryptors s' = mapNoteDecryptors s)
  /\ (mapKeys s' = mapKeys s
      /\ mapScripts s' = mapScripts s
      /\ setWatchOnly s' = setWatchOnly s
      /\ setSaplingWatchOnly s' = setSaplingWatchOnly s
      /\ hdSeed s' = hdSeed s
      /\ mapSproutSpendingKeys s' = mapSproutSpendingKeys s
      /\ mapSaplingSpendingKeys s' = mapSaplingSpendingKeys s
      /\ mapSaplingFullViewingKeys s' = mapSaplingFullViewingKeys s
      /\ setSaplingOutgoingViewingKeys s' = setSaplingOutgoingViewingKeys s
      /\ mapSaplingIncomingViewingKeys s' = mapSaplingIncomingViewingKeys s
      /\ setSaplingIncomingViewingKeys s' = setSaplingIncomingViewingKeys s
      /\ mapSaplingPaymentAddresses s' = mapSaplingPaymentAddresses s
      /\ mapLastDiversifierPath s' = mapLastDiversifierPath s)
  /\ (let t := snd (RemoveSproutViewingKey vk (snd (AddSproutViewingKey vk s))) in
      is_Some (mapNoteDecryptors t !! vk_address vk)
      /\ mapSproutViewingKeys t !! vk_address vk = None)
  /\ (forall sk : SproutSpendingKey,
        let t := snd (RemoveSproutViewingKey vk (snd (AddSproutSpendingKey sk s))) in
        sk_address sk = vk_address vk ->
        is_Some (mapNoteDecryptors t !! vk_address vk)).
Proof.
  assert (Hins : forall (a : SproutPaymentAddress) (d : ZCNoteDecryption)
                        (m : gmap SproutPaymentAddress ZCNoteDecryption),
             is_Some (map_insert_pair a d m !! a)).
  { intros a d m. unfold map_insert_pair.
    destruct (m !! a) eqn:Hm.
    - rewrite Hm. eauto.
    - rewrite lookup_insert_eq. eauto. }
  simpl. split; [| split; [| split]].
  - repeat split.
  - repeat split.
  - split; [apply Hins | apply lookup_delete_eq].
  - intros sk Haddr. rewrite <- Haddr. apply Hins.
Qed.

End KeyStoreProperties.

Section JobProperties.
Context `{Primitives}.

(** ** The consolidation job *)

Lemma to_int64_small (z : Z) : - 2 ^ 63 <= z < 2 ^ 63 -> to_int64 z = z.
Proof. intros Hz. unfold to_int64. rewrite Z.mod_small; lia. Qed.

Lemma sum_values_app (l1 l2 : list SaplingNoteEntry) :
  sum_values (l1 ++ l2) = sum_values l1 + sum_values l2.
Proof. induction l1 as [| x l1 IH]; simpl; [reflexivity | rewrite IH; lia]. Qed.

(** Ltac: split the body of the loop along its tests. *)
Ltac address_cases :=
  repeat match goal with
         | |- context [match ?x with _ => _ end] => destruct x eqn:?
         end.

(** What [yield] and [next_rand] leave alone. *)
Lemma yield_committed (e : Env) (y : YieldPoint) (st : JobState) :
  committed (yield e y st) = committed st.
Proof. unfold yield. destruct (cancel_at e y); reflexivity. Qed.

Lemma yield_schedule (e : Env) (y : YieldPoint) (st : JobState) :
  nextConsolidation (yield e y st) = nextConsolidation st
  /\ fConsolidationRunning (yield e y st) = fConsolidationRunning st.
Proof. unfold yield. destruct (cancel_at e y); split; reflexivity. Qed.


Lemma yield_cancels (e : Env) (y : YieldPoint) (st : JobState) :
  cancel_at e y = true -> isCancelled (yield e y st) = true.
Proof. unfold yield. intros ->. reflexivity. Qed.

(** The spends never touch the fee, the outputs or the expiry height. *)
Lemma add_spends_frame (k : SaplingExpandedSpendingKey) (anchor : uint256)
    (witnesses : list (option SaplingWitness)) (notes : list SaplingNote) :
  forall (i : nat) (b : TransactionBuilder),
    fee (add_spends k anchor witnesses notes i b) = fee b
    /\ outputs (add_spends k anchor witnesses notes i b) = outputs b
    /\ expiryHeight (add_spends k anchor witnesses notes i b) = expiryHeight b.
Proof.
  induction notes as [| n rest IH]; intros i b; simpl; [auto |].
  destruct (witnesses !! i) as [[w |] |]; auto.
  destruct (IH (S i) (AddSaplingSpend k n anchor w b)) as (-> & -> & ->). auto.
Qed.

(** At most one spend per note, and fewer when a witness is missing. *)
Lemma add_spends_length (k : SaplingExpandedSpendingKey) (anchor : uint256)
    (witnesses : list (option SaplingWitness)) (notes : list SaplingNote) :
  forall (i : nat) (b : TransactionBuilder),
    (length (spends (add_spends k anchor witnesses notes i b))
     <= length (spends b) + length notes)%nat.
Proof.
  induction notes as [| n rest IH]; intros i b; simpl; [lia |].
  destruct (witnesses !! i) as [[w |] |]; try lia.
  specialize (IH (S i) (AddSaplingSpend k n anchor w b)).
  simpl in IH. rewrite length_app in IH. simpl in IH. lia.
Qed.

Lemma add_spends_missing (k : SaplingExpandedSpendingKey) (anchor : uint256)
    (witnesses : list (option SaplingWitness)) (notes : list SaplingNote) :
  forall (j i : nat) (b : TransactionBuilder),
    (j < length notes)%nat ->
    witnesses !! (i + j)%nat = Some None ->
    (length (spends (add_spends k anchor witnesses notes i b))
     < length (spends b) + length notes)%nat.
Proof.
  induction notes as [| n rest IH]; intros j i b Hj Hw; simpl in *; [lia |].
  destruct j as [| j].
  - rewrite Nat.add_0_r in Hw. rewrite Hw. lia.
  - destruct (witnesses !! i) as [[w |] |]; try lia.
    assert (Hlt : (j < length rest)%nat) by lia.
    replace (i + S j)%nat with (S i + j)%nat in Hw by lia.
    specialize (IH j (S i) (AddSaplingSpend k n anchor w b) Hlt Hw).
    simpl in IH. rewrite length_app in IH. simpl in IH. lia.
Qed.

(** With a witness for every note, every note is spent. *)
Lemma add_spends_complete (k : SaplingExpandedSpendingKey) (anchor : uint256)
    (witnesses : list (option SaplingWitness)) (notes : list SaplingNote) :
  forall (i : nat) (b : TransactionBuilder),
    (forall j, (j < length notes)%nat -> exists w, witnesses !! (i + j)%nat = Some (Some w)) ->
    map spend_note (spends (add_spends k anchor witnesses notes i b))
    = map spend_note (spends b) ++ notes.
Proof.
  induction notes as [| n rest IH]; intros i b Hall; simpl.
  - rewrite app_nil_r. reflexivity.
  - destruct (Hall 0%nat ltac:(simpl; lia)) as [w Hw].
    rewrite Nat.add_0_r in Hw. rewrite Hw.
    rewrite IH.
    + simpl. rewrite map_app, <- app_assoc. reflexivity.
    + intros j Hj. destruct (Hall (S j) ltac:(simpl; lia)) as [w' Hw'].
      exists w'. rewrite <- Hw'. f_equal. lia.
Qed.

(** The fee and the single output of the builder handed to [Build]. *)
Lemma configure_builder_fee_output (e : Env) (extsk : SaplingExtendedSpendingKey)
    (addr : SaplingPaymentAddress) (fromNotes : list SaplingNoteEntry) (amountToSend f : Z) :
  let b := configure_builder e extsk addr fromNotes amountToSend f in
  fee b = Some f
  /\ outputs b = [mkOutput (expsk_ovk (expsk extsk)) addr (CAmount_sub amountToSend f)]
  /\ expiryHeight b = Some (int_add (tipHeight e) CONSOLIDATION_EXPIRY_DELTA).
Proof.
  unfold configure_builder.
  destruct (GetSaplingNoteWitnesses e (map op fromNotes)) as [witnesses anchor].
  simpl.
  destruct (add_spends_frame (expsk extsk) anchor witnesses (map note fromNotes) 0
              (SetExpiryHeight (int_add (tipHeight e) CONSOLIDATION_EXPIRY_DELTA)
                 (newTransactionBuilder (targetHeight_ e)))) as (_ & -> & ->).
  auto.
Qed.

(** A missing witness leaves the builder with fewer spends than notes
    selected; the fee and the output for the whole amount are set all the
    same. *)
Lemma configure_builder_missing_witness (e : Env) (extsk : SaplingExtendedSpendingKey)
    (addr : SaplingPaymentAddress) (fromNotes : list SaplingNoteEntry) (amountToSend f : Z)
    (j : nat) :
  (j < length fromNotes)%nat ->
  fst (GetSaplingNoteWitnesses e (map op fromNotes)) !! j = Some None ->
  let b := configure_builder e extsk addr fromNotes amountToSend f in
  (length (spends b) < length fromNotes)%nat
  /\ fee b = Some f
  /\ outputs b = [mkOutput (expsk_ovk (expsk extsk)) addr (CAmount_sub amountToSend f)].
Proof.
  intros Hj Hw b.
  destruct (configure_builder_fee_output e extsk addr fromNotes amountToSend f)
    as (Hfee & Hout & _).
  split; [| auto].
  subst b. unfold configure_builder.
  destruct (GetSaplingNoteWitnesses e (map op fromNotes)) as [witnesses anchor].
  simpl in *.
  pose proof (add_spends_missing (expsk extsk) anchor witnesses (map note fromNotes) j 0
                (SetExpiryHeight (int_add (tipHeight e) CONSOLIDATION_EXPIRY_DELTA)
                   (newTransactionBuilder (targetHeight_ e)))) as Hlen.
  rewrite length_map in Hlen. simpl in Hlen. apply Hlen; assumption.
Qed.

Ltac address_cases_in H :=
  repeat match type of H with
         | context [match ?x with _ => _ end] => destruct x eqn:?
         end.

(** One iteration: the counter of transactions and the wallet's schedule are
    left alone; the run stays complete exactly when the address does not
    reach the target; an iteration that leaves the loop has made the run
    incomplete before. *)
Lemma consolidate_address_frame (e : Env) (addr : SaplingPaymentAddress)
    (saplingEntries : list SaplingNoteEntry) (l l' : Locals) (st st' : JobState)
    (c : Control) :
  consolidate_address e addr saplingEntries l st = (c, l', st') ->
  numTxCreated l' = numTxCreated l
  /\ schedule_untouched st st'
  /\ consolidationComplete l'
     = consolidationComplete l && negb (reaches_target e (addr, saplingEntries))
  /\ (c = Break -> consolidationComplete l' = false).
Proof.
  unfold consolidate_address, reaches_target, schedule_untouched, next_rand, yield,
    CommitAutomatedTx, cancel, set_state.
  cbv beta iota zeta. cbn [fst snd]. intros Hc.
  address_cases_in Hc; inversion Hc; subst; clear Hc; simpl;
    rewrite ?andb_false_r, ?andb_true_r; repeat split; congruence.
Qed.

(** The loop over the addresses: the same, for all the addresses. *)
Lemma consolidate_addresses_frame (e : Env) (mapAddresses : AddressMap) :
  forall (l l' : Locals) (st st' : JobState),
    consolidate_addresses e mapAddresses l st = (l', st') ->
    numTxCreated l' = numTxCreated l
    /\ schedule_untouched st st'
    /\ consolidationComplete l'
       = consolidationComplete l
         && forallb (fun g => negb (reaches_target e g)) mapAddresses.
Proof.
  unfold schedule_untouched.
  induction mapAddresses as [| [addr saplingEntries] rest IH]; intros l l' st st' Hloop.
  - simpl in Hloop. injection Hloop as <- <-. rewrite andb_true_r. auto.
  - simpl in Hloop.
    destruct (consolidate_address e addr saplingEntries l st) as [[c l1] st1] eqn:Hbody.
    apply consolidate_address_frame in Hbody as (Hnum & [Hnext Hrun] & Hcomplete & Hbreak).
    cbn [forallb]. destruct c.
    + apply IH in Hloop as (-> & [-> ->] & ->).
      rewrite Hcomplete, andb_assoc. auto.
    + injection Hloop as <- <-.
      rewrite andb_assoc, <- Hcomplete, (Hbreak eq_refl). auto.
Qed.

(** [main_impl] always returns [true]. *)
Lemma main_impl_returns_true (e : Env) (st : JobState) : fst (main_impl e st) = true.
Proof.
  unfold main_impl. destruct (too_close_to_activation e); [reflexivity |].
  destruct (consolidate_addresses e (collect_notes e) (mkLocals 0 [] 0 true)
              (yield e AtNoteEnumeration st)) as [l st1].
  reflexivity.
Qed.

(** The count of transactions that a run reports is 0, whatever it has
    committed. *)
Lemma main_impl_reports_zero (e : Env) (st : JobState) :
  exists r, result_ (snd (main_impl e st)) = Some r /\ num_tx_created r = 0.
Proof.
  unfold main_impl. destruct (too_close_to_activation e).
  - eexists. split; reflexivity.
  - destruct (consolidate_addresses e (collect_notes e) (mkLocals 0 [] 0 true)
                (yield e AtNoteEnumeration st)) as [l st1] eqn:Hloop.
    apply consolidate_addresses_frame in Hloop as (Hnum & _).
    eexists. split; [reflexivity |]. exact Hnum.
Qed.

(** A run that [main] starts ends in the state [SUCCESS], also when
    [cancel()] was called during it. *)
Lemma main_ends_SUCCESS (e : Env) (st : JobState) :
  isCancelled st = false -> state_ (main e st) = SUCCESS.
Proof.
  intros Hnot. unfold main. rewrite Hnot.
  pose proof (main_impl_returns_true e (set_state EXECUTING st)) as Htrue.
  destruct (main_impl e (set_state EXECUTING st)) as [success st1].
  simpl in Htrue. subst success. reflexivity.
Qed.

(** After a call of [cancel()] before the witnesses of an address are
    fetched, the iteration for that address commits nothing. *)
Lemma consolidate_address_cancel_requested (e : Env) (addr : SaplingPaymentAddress)
    (saplingEntries : list SaplingNoteEntry) (l : Locals) (st : JobState) :
  cancel_at e (AtWitnessRetrieval addr) = true ->
  committed (snd (consolidate_address e addr saplingEntries l st)) = committed st.
Proof.
  intros Hcancel. unfold consolidate_address, next_rand. cbv beta iota zeta.
  address_cases; cbn [snd]; rewrite ?yield_committed; try reflexivity.
  match goal with
  | Hobs : isCancelled (yield e (AtWitnessRetrieval addr) ?s) = false |- _ =>
      rewrite (yield_cancels e (AtWitnessRetrieval addr) s Hcancel) in Hobs; discriminate
  end.
Qed.

(** C3, as amended: a run marks itself complete (schedules the next
    consolidation at the configured interval past the tip and clears the
    running flag) exactly when it is not given up for being too close to an
    activation and no address with a spending key reaches the target count of
    notes (every such address is skipped at step 4b); otherwise it leaves the
    schedule and the flag as they were.  An address that reaches the target
    makes the run incomplete, also when it is then skipped at step 4c. *)
Theorem main_impl_marks_complete (e : Env) (st : JobState) :
  let st' := snd (main_impl e st) in
  if negb (too_close_to_activation e)
     && forallb (fun g => negb (reaches_target e g)) (collect_notes e)
  then marked_complete e st'
  else schedule_untouched st st'.
Proof.
  unfold main_impl. destruct (too_close_to_activation e); cbn [negb andb snd].
  - split; reflexivity.
  - destruct (consolidate_addresses e (collect_notes e) (mkLocals 0 [] 0 true)
                (yield e AtNoteEnumeration st)) as [l st1] eqn:Hloop.
    apply consolidate_addresses_frame in Hloop as (_ & [Hnext Hrun] & Hcomplete).
    cbn [consolidationComplete andb] in Hcomplete. rewrite <- Hcomplete.
    destruct (yield_schedule e AtNoteEnumeration st) as [Hnext0 Hrun0].
    destruct (consolidationComplete l); cbn [snd].
    + split; reflexivity.
    + split; simpl; congruence.
Qed.

(** Without overflow, the amount that [select_notes] returns is the sum of the
    values of the notes it returns. *)
Lemma select_notes_sum (e : Env) (extsk : SaplingExtendedSpendingKey)
    (addr : SaplingPaymentAddress) (maxQuantity : nat)
    (saplingEntries : list SaplingNoteEntry) :
  forall (amountToSend : Z) (fromNotes : list SaplingNoteEntry),
    Forall (fun entry => 0 <= note_value (note entry)) saplingEntries ->
    amountToSend = sum_values fromNotes ->
    0 <= sum_values fromNotes ->
    sum_values fromNotes + sum_values saplingEntries < 2 ^ 63 ->
    let r := select_notes e extsk addr maxQuantity saplingEntries amountToSend fromNotes in
    fst r = sum_values (snd r) /\ 0 <= fst r < 2 ^ 63.
Proof.
  induction saplingEntries as [| entry rest IH];
    intros amountToSend fromNotes Hpos Hsum Hfrom Hbound; simpl in *.
  - subst. lia.
  - inversion Hpos as [| ? ? Hv Hrest]; subst.
    assert (Hrest_pos : 0 <= sum_values rest).
    { clear - Hrest. induction rest as [| x rest IH]; simpl; [lia |].
      inversion Hrest; subst. specialize (IH ltac:(assumption)). lia. }
    destruct (note_selected e extsk addr entry).
    + assert (Hadd : CAmount_add (sum_values fromNotes) (to_int64 (note_value (note entry)))
                     = sum_values (fromNotes ++ [entry])).
      { unfold CAmount_add. rewrite sum_values_app. simpl.
        rewrite (to_int64_small (note_value (note entry))) by lia.
        rewrite to_int64_small by lia. lia. }
      rewrite Hadd.
      assert (Hnew : sum_values (fromNotes ++ [entry])
                     = sum_values fromNotes + note_value (note entry)).
      { rewrite sum_values_app. simpl. lia. }
      destruct (maxQuantity <=? length (fromNotes ++ [entry]))%nat.
      * simpl. lia.
      * apply IH; [assumption | reflexivity | lia | lia].
    + destruct (maxQuantity <=? length fromNotes)%nat.
      * simpl. lia.
      * apply IH; [assumption | reflexivity | lia | lia].
Qed.

(** C7: when the iteration for an address commits a transaction, the builder
    that built it has the fee [F] if the summed value [V] of the selected
    notes exceeds [F] and the fee 0 otherwise, and a single output, to the
    address, of [V] minus that fee, which is not negative.  Amounts are
    [int64_t]: the values of the address's notes are not negative and sum up
    to less than [2^63], and the configured fee is not negative. *)
Theorem consolidation_fee_and_output (e : Env) (addr : SaplingPaymentAddress)
    (saplingEntries : list SaplingNoteEntry) (l : Locals) (st : JobState)
    (extsk : SaplingExtendedSpendingKey) (tx : CTransaction) :
  GetSaplingExtendedSpendingKey addr (keystore e) = Some extsk ->
  Forall (fun entry => 0 <= note_value (note entry)) saplingEntries ->
  sum_values saplingEntries < 2 ^ 63 ->
  0 <= fConsolidationTxFee e ->
  committed (snd (consolidate_address e addr saplingEntries l st)) = committed st ++ [tx] ->
  let fromNotes :=
    snd (select_notes e extsk addr (rand e (rand_calls st) mod 35 + 10)%nat
           saplingEntries 0 []) in
  let V := sum_values fromNotes in
  let F := fConsolidationTxFee e in
  let txfee := if F <? V then F else 0 in
  exists builder : TransactionBuilder,
    Build e builder = Some tx
    /\ fee builder = Some txfee
    /\ outputs builder = [mkOutput (expsk_ovk (expsk extsk)) addr (V - txfee)]
    /\ 0 <= V - txfee.
Proof.
  intros Hkey Hpos Hbound Hfee Hcommit fromNotes V F txfee.
  pose proof (select_notes_sum e extsk addr (rand e (rand_calls st) mod 35 + 10)%nat
                saplingEntries 0 [] Hpos eq_refl ltac:(simpl; lia)
                ltac:(simpl; lia)) as [Hsum Hrange].
  fold fromNotes in Hsum. fold V in Hsum.
  assert (Hnil : forall (A : Type) (xs : list A) (x : A), xs <> xs ++ [x]).
  { intros A xs x Heq. apply (f_equal (@length A)) in Heq.
    rewrite length_app in Heq. simpl in Heq. lia. }
  revert Hcommit. unfold consolidate_address, next_rand. rewrite Hkey.
  cbv beta iota zeta. cbn [rand_calls].
  destruct (count_notes e extsk addr saplingEntries <? targetConsolidationQty e);
    [intros Hc; cbn [snd committed] in Hc; exfalso; exact (Hnil _ _ _ Hc) |].
  destruct (select_notes e extsk addr (rand e (rand_calls st) mod 35 + 10)%nat
              saplingEntries 0 []) as [amountToSend selected] eqn:Hsel.
  cbn [fst snd] in *. subst fromNotes.
  destruct (length selected <? rand e (S (rand_calls st)) mod 10 + 2)%nat;
    [intros Hc; cbn [snd committed] in Hc; exfalso; exact (Hnil _ _ _ Hc) |].
  destruct (Build e (configure_builder e extsk addr selected amountToSend
                       (consolidation_fee e amountToSend))) as [tx0 |] eqn:Hbuild.
  2: { intros Hc; cbn [snd] in Hc; rewrite !yield_committed in Hc.
       exfalso; exact (Hnil _ _ _ Hc). }
  match goal with |- context [if ?c then _ else _] => destruct c end.
  { intros Hc; cbn [snd] in Hc; rewrite !yield_committed in Hc.
    exfalso; exact (Hnil _ _ _ Hc). }
  intros Hc. cbn [snd] in Hc. unfold CommitAutomatedTx in Hc. cbn [committed] in Hc.
  rewrite !yield_committed in Hc. cbn [committed] in Hc.
  apply app_inv_head in Hc. injection Hc as ->.
  assert (Hfee' : consolidation_fee e amountToSend = txfee).
  { unfold consolidation_fee, txfee, F. rewrite Hsum.
    destruct (V <=? fConsolidationTxFee e) eqn:Hle;
      destruct (fConsolidationTxFee e <? V) eqn:Hlt; lia. }
  exists (configure_builder e extsk addr selected amountToSend
            (consolidation_fee e amountToSend)).
  destruct (configure_builder_fee_output e extsk addr selected amountToSend
              (consolidation_fee e amountToSend)) as (Hf & Ho & _).
  assert (Hnonneg : 0 <= V - txfee).
  { unfold txfee, F. destruct (fConsolidationTxFee e <? V) eqn:Hlt; lia. }
  assert (Hsub : CAmount_sub amountToSend txfee = V - txfee).
  { unfold CAmount_sub. rewrite Hsum. apply to_int64_small.
    unfold txfee, F in *. destruct (fConsolidationTxFee e <? V) eqn:Hlt; lia. }
  rewrite Hfee' in *. rewrite Hsub in Ho. auto.
Qed.

(** An address that is not processed past both skips commits nothing, adds
    nothing to the reported amount and identifiers, and lets the loop go on;
    when it is skipped at step 4c the run is incomplete all the same. *)
Lemma consolidate_address_skipped (e : Env) (addr : SaplingPaymentAddress)
    (saplingEntries : list SaplingNoteEntry) (l l' : Locals) (st st' : JobState)
    (c : Control) :
  consolidate_address e addr saplingEntries l st = (c, l', st') ->
  disposition e addr saplingEntries (rand_calls st) <> PastBothSkips ->
  c = Continue
  /\ committed st' = committed st
  /\ consolidationTxIds l' = consolidationTxIds l
  /\ amountConsolidated l' = amountConsolidated l
  /\ (disposition e addr saplingEntries (rand_calls st) = BelowMinimum ->
      consolidationComplete l' = false).
Proof.
  unfold consolidate_address, disposition, next_rand.
  cbv beta iota zeta. cbn [rand_calls].
  destruct (GetSaplingExtendedSpendingKey addr (keystore e)) as [extsk |].
  2: { intros Hc _. injection Hc as <- <- <-. repeat split; discriminate. }
  destruct (count_notes e extsk addr saplingEntries <? targetConsolidationQty e).
  { intros Hc _. injection Hc as <- <- <-. repeat split; discriminate. }
  destruct (select_notes e extsk addr (rand e (rand_calls st) mod 35 + 10)%nat
              saplingEntries 0 []) as [amountToSend fromNotes].
  cbn [snd].
  destruct (length fromNotes <? rand e (S (rand_calls st)) mod 10 + 2)%nat.
  { intros Hc _. injection Hc as <- <- <-. repeat split; reflexivity. }
  intros _ Hne. contradiction.
Qed.

End JobProperties.

Section KeyStoreOperations.
Context `{Primitives}.

(** ** The key store: the other operations *)


(** X2: [AddCScript] accepts a script of at most [MAX_SCRIPT_ELEMENT_SIZE]
    bytes (the bound itself included): the script is then found under its
    hash by [GetCScript] and [HaveCScript], and the other hashes keep their
    scripts.  A longer script is refused and the store is left as it is. *)
Theorem AddCScript_size_bound (redeemScript : CScript) (s : CBasicKeyStore) :
  (script_size redeemScript <= MAX_SCRIPT_ELEMENT_SIZE ->
   let s' := snd (AddCScript redeemScript s) in
   fst (AddCScript redeemScript s) = true
   /\ GetCScript (ScriptID redeemScript) s' = Some redeemScript
   /\ HaveCScript (ScriptID redeemScript) s' = true
   /\ (forall hash, hash <> ScriptID redeemScript ->
                    GetCScript hash s' = GetCScript hash s))
  /\ (MAX_SCRIPT_ELEMENT_SIZE < script_size redeemScript ->
      AddCScript redeemScript s = (false, s)).
Proof.
  unfold AddCScript, GetCScript, HaveCScript. split.
  - intros Hle.
    destruct (MAX_SCRIPT_ELEMENT_SIZE <? script_size redeemScript) eqn:Hlt; [lia |].
    simpl. rewrite lookup_insert_eq.
    split; [reflexivity |]. split; [reflexivity |].
    split; [apply bool_decide_eq_true; eauto |].
    intros hash Hne. apply lookup_insert_ne. congruence.
  - intros Hgt.
    destruct (MAX_SCRIPT_ELEMENT_SIZE <? script_size redeemScript) eqn:Hlt; [reflexivity | lia].
Qed.

(** X3: the watch-only scripts are a set.  After [AddWatchOnly dest] the
    script is watched, after [RemoveWatchOnly dest] it is not; neither call
    changes whether another script is watched; adding a script twice is
    adding it once, and removing a script that is not watched changes
    nothing. *)
Theorem watch_only_set_semantics (dest other : CScript) (s : CBasicKeyStore) :
  HaveWatchOnly dest (snd (AddWatchOnly dest s)) = true
  /\ HaveWatchOnly dest (snd (RemoveWatchOnly dest s)) = false
  /\ (other <> dest ->
      HaveWatchOnly other (snd (AddWatchOnly dest s)) = HaveWatchOnly other s
      /\ HaveWatchOnly other (snd (RemoveWatchOnly dest s)) = HaveWatchOnly other s)
  /\ AddWatchOnly dest (snd (AddWatchOnly dest s)) = AddWatchOnly dest s
  /\ (HaveWatchOnly dest s = false -> setWatchOnly (snd (RemoveWatchOnly dest s)) = setWatchOnly s).
Proof.
  unfold HaveWatchOnly, AddWatchOnly, RemoveWatchOnly. simpl.
  split; [| split; [| split; [| split]]].
  - apply bool_decide_eq_true, elem_of_union. left. apply elem_of_singleton. reflexivity.
  - apply bool_decide_eq_false. rewrite elem_of_difference, elem_of_singleton. tauto.
  - intros Hne. split; apply bool_decide_ext.
    + rewrite elem_of_union, elem_of_singleton. tauto.
    + rewrite elem_of_difference, elem_of_singleton. tauto.
  - unfold with_setWatchOnly. simpl. do 2 f_equal.
    rewrite (assoc_L (∪)), union_idemp_L. reflexivity.
  - intros Hnot. apply bool_decide_eq_false in Hnot.
    apply difference_disjoint_L, disjoint_singleton_r. exact Hnot.
Qed.

(** X4: [HaveWatchOnly()] answers [true] exactly when some script or some
    Sapling full viewing key is watched. *)
Theorem HaveAnyWatchOnly_iff (s : CBasicKeyStore) :
  HaveAnyWatchOnly s = true
  <-> (exists dest, HaveWatchOnly dest s = true)
      \/ (exists extfvk, HaveSaplingWatchOnly extfvk s = true).
Proof.
  unfold HaveAnyWatchOnly, HaveWatchOnly, HaveSaplingWatchOnly. split.
  - intros Hany.
    destruct (bool_decide (setWatchOnly s = ∅)) eqn:Hw; simpl in Hany.
    + destruct (bool_decide (setSaplingWatchOnly s = ∅)) eqn:Hz; simpl in Hany;
        [discriminate |].
      apply bool_decide_eq_false in Hz. apply set_choose_L in Hz as [k Hk].
      right. exists k. apply bool_decide_eq_true. exact Hk.
    + apply bool_decide_eq_false in Hw. apply set_choose_L in Hw as [d Hd].
      left. exists d. apply bool_decide_eq_true. exact Hd.
  - intros [[d Hd] | [k Hk]].
    + apply bool_decide_eq_true in Hd.
      assert (Hne : setWatchOnly s <> ∅) by (intros He; rewrite He in Hd; exact (not_elem_of_empty d Hd)).
      rewrite (bool_decide_eq_false_2 _ Hne). reflexivity.
    + apply bool_decide_eq_true in Hk.
      assert (Hne : setSaplingWatchOnly s <> ∅) by (intros He; rewrite He in Hk; exact (not_elem_of_empty k Hk)).
      rewrite (bool_decide_eq_false_2 _ Hne). simpl.
      destruct (bool_decide (setWatchOnly s = ∅)); reflexivity.
Qed.


(** X6: a null seed does not use up the one write: on a store without a seed,
    [SetHDSeed] of a null seed returns [true], the store still has no seed, and
    the next [SetHDSeed] succeeds as well. *)
Theorem SetHDSeed_null_seed_can_be_replaced (seed seed2 : HDSeed) (s : CBasicKeyStore) :
  HaveHDSeed s = false ->
  IsNull seed = true ->
  let s' := snd (SetHDSeed seed s) in
  fst (SetHDSeed seed s) = true
  /\ HaveHDSeed s' = false
  /\ GetHDSeed s' = None
  /\ fst (SetHDSeed seed2 s') = true
  /\ hdSeed (snd (SetHDSeed seed2 s')) = seed2.
Proof.
  unfold SetHDSeed, HaveHDSeed, GetHDSeed. intros Hno Hnull.
  apply negb_false_iff in Hno. rewrite Hno. simpl. rewrite Hnull. simpl.
  repeat split.
Qed.

(** X7: a seed that [GetHDSeed] returns is the stored one and is not null, and
    [HaveHDSeed] is [true] exactly when [GetHDSeed] returns a seed. *)
Theorem GetHDSeed_HaveHDSeed (s : CBasicKeyStore) :
  (HaveHDSeed s = true <-> is_Some (GetHDSeed s))
  /\ (forall seed, GetHDSeed s = Some seed -> seed = hdSeed s /\ IsNull seed = false).
Proof.
  unfold HaveHDSeed, GetHDSeed. destruct (IsNull (hdSeed s)) eqn:Hnull; simpl.
  - split.
    + split; [discriminate | intros [x Hx]; discriminate].
    + intros seed Hs. discriminate.
  - split.
    + split; [eauto | reflexivity].
    + intros seed Hs. injection Hs as <-. auto.
Qed.

(** X8: a Sprout viewing key round trip.  After [AddSproutViewingKey vk] the
    key is found under its address; after [RemoveSproutViewingKey vk] the
    address has no viewing key; neither call changes the viewing key of
    another address. *)
Theorem SproutViewingKey_add_remove (vk : SproutViewingKey) (other : SproutPaymentAddress)
    (s : CBasicKeyStore) :
  let added := snd (AddSproutViewingKey vk s) in
  let removed := snd (RemoveSproutViewingKey vk added) in
  GetSproutViewingKey (vk_address vk) added = Some vk
  /\ HaveSproutViewingKey (vk_address vk) added = true
  /\ GetSproutViewingKey (vk_address vk) removed = None
  /\ HaveSproutViewingKey (vk_address vk) removed = false
  /\ (other <> vk_address vk ->
      GetSproutViewingKey other added = GetSproutViewingKey other s
      /\ GetSproutViewingKey other removed = GetSproutViewingKey other s).
Proof.
  unfold GetSproutViewingKey, HaveSproutViewingKey. simpl.
  rewrite lookup_insert_eq, lookup_delete_eq.
  split; [reflexivity |]. split; [apply bool_decide_eq_true; eauto |].
  split; [reflexivity |].
  split; [apply bool_decide_eq_false; intros [x Hx]; discriminate |].
  intros Hne.
  rewrite lookup_delete_ne by congruence.
  rewrite lookup_insert_ne by congruence. auto.
Qed.

(** X9: the note decryptor of an address is written once.
    [AddSproutSpendingKey] and [AddSproutViewingKey] keep a decryptor that the
    address already has and store the one derived from their key only when it
    has none; so after [AddSproutViewingKey vk] a spending key of the same
    address does not replace the decryptor. *)
Theorem note_decryptor_first_wins (sk : SproutSpendingKey) (vk : SproutViewingKey)
    (s : CBasicKeyStore) :
  mapNoteDecryptors (snd (AddSproutSpendingKey sk s)) !! sk_address sk
  = Some (match mapNoteDecryptors s !! sk_address sk with
          | Some d => d
          | None => NoteDecryption (receiving_key sk)
          end)
  /\ mapNoteDecryptors (snd (AddSproutViewingKey vk s)) !! vk_address vk
     = Some (match mapNoteDecryptors s !! vk_address vk with
             | Some d => d
             | None => NoteDecryption (sk_enc vk)
             end)
  /\ (sk_address sk = vk_address vk ->
      mapNoteDecryptors (snd (AddSproutSpendingKey sk (snd (AddSproutViewingKey vk s))))
        !! vk_address vk
      = mapNoteDecryptors (snd (AddSproutViewingKey vk s)) !! vk_address vk).
Proof.
  assert (Hins : forall (a : SproutPaymentAddress) (d : ZCNoteDecryption)
                        (m : gmap SproutPaymentAddress ZCNoteDecryption),
             map_insert_pair a d m !! a
             = Some (match m !! a with Some d0 => d0 | None => d end)).
  { intros a d m. unfold map_insert_pair.
    destruct (m !! a) eqn:Hm; [exact Hm | apply lookup_insert_eq]. }
  simpl. split; [apply Hins |]. split; [apply Hins |].
  intros Haddr. rewrite Haddr. rewrite Hins. rewrite Hins. reflexivity.
Qed.

End KeyStoreOperations.


Section SaplingKeys.
Context `{Primitives}.

(** ** The key store: Sapling keys *)

(** X10: [AddSaplingFullViewingKey] always succeeds; afterwards the full
    viewing key is found under its incoming viewing key, its default address
    maps to that incoming viewing key, and its outgoing and incoming viewing
    keys are in their sets. *)
Theorem AddSaplingFullViewingKey_registers (extfvk : SaplingExtendedFullViewingKey)
    (s : CBasicKeyStore) :
  let s' := snd (AddSaplingFullViewingKey extfvk s) in
  let ivk := in_viewing_key extfvk in
  fst (AddSaplingFullViewingKey extfvk s) = true
  /\ GetSaplingFullViewingKey ivk s' = Some extfvk
  /\ HaveSaplingFullViewingKey ivk s' = true
  /\ GetSaplingIncomingViewingKey (DefaultAddress extfvk) s' = Some ivk
  /\ HaveSaplingIncomingViewingKey (DefaultAddress extfvk) s' = true
  /\ fvk_ovk extfvk ∈ setSaplingOutgoingViewingKeys s'
  /\ ivk ∈ setSaplingIncomingViewingKeys s'.
Proof.
  unfold GetSaplingFullViewingKey, HaveSaplingFullViewingKey, GetSaplingIncomingViewingKey,
    HaveSaplingIncomingViewingKey.
  simpl. rewrite !lookup_insert_eq.
  split; [reflexivity |]. split; [reflexivity |].
  split; [apply bool_decide_eq_true; eauto |]. split; [reflexivity |].
  split; [apply bool_decide_eq_true; eauto |].
  split; apply elem_of_union; left; apply elem_of_singleton; reflexivity.
Qed.

(** X11: a full viewing key alone gives no spending authority: when the store
    has no spending key for [extfvk], the composite lookup of its default
    address fails after [AddSaplingFullViewingKey extfvk], although the
    address now has an incoming and a full viewing key. *)
Theorem viewing_key_gives_no_spending_key (extfvk : SaplingExtendedFullViewingKey)
    (s : CBasicKeyStore) :
  mapSaplingSpendingKeys s !! extfvk = None ->
  let s' := snd (AddSaplingFullViewingKey extfvk s) in
  GetSaplingExtendedSpendingKey (DefaultAddress extfvk) s' = None
  /\ HaveSaplingIncomingViewingKey (DefaultAddress extfvk) s' = true
  /\ HaveSaplingFullViewingKey (in_viewing_key extfvk) s' = true.
Proof.
  intros Hnone.
  unfold GetSaplingExtendedSpendingKey, GetSaplingIncomingViewingKey,
    GetSaplingFullViewingKey, GetSaplingSpendingKey, HaveSaplingIncomingViewingKey,
    HaveSaplingFullViewingKey.
  simpl. rewrite !lookup_insert_eq.
  split; [exact Hnone |]. split; apply bool_decide_eq_true; eauto.
Qed.

(** X12: adding a spending key twice is adding it once: the second
    [AddSaplingSpendingKey sk] returns [true] and leaves the store as the first
    one made it. *)
Theorem AddSaplingSpendingKey_idempotent (sk : SaplingExtendedSpendingKey)
    (s : CBasicKeyStore) :
  AddSaplingSpendingKey sk (snd (AddSaplingSpendingKey sk s))
  = (true, snd (AddSaplingSpendingKey sk s)).
Proof.
  destruct s as [keys scripts watch saplingwatch seed sproutsk sproutvk decryptors
                   sks fvks ovks ivks ivkset paths lastpaths].
  cbv beta iota zeta delta
    [AddSaplingSpendingKey AddSaplingFullViewingKey AddSaplingIncomingViewingKey
     with_mapSaplingSpendingKeys with_setSaplingIncomingViewingKeys
     with_mapSaplingIncomingViewingKeys with_setSaplingOutgoingViewingKeys
     with_mapSaplingFullViewingKeys
     fst snd negb mapKeys mapScripts setWatchOnly setSaplingWatchOnly hdSeed
     mapSproutSpendingKeys mapSproutViewingKeys mapNoteDecryptors mapSaplingSpendingKeys
     mapSaplingFullViewingKeys setSaplingOutgoingViewingKeys mapSaplingIncomingViewingKeys
     setSaplingIncomingViewingKeys mapSaplingPaymentAddresses mapLastDiversifierPath].
  rewrite !insert_insert_eq.
  rewrite !(assoc_L (∪)), !union_idemp_L. reflexivity.
Qed.

(** X13: the diversifier bookkeeping gives no viewing or spending authority.
    [AddSaplingDiversifiedAddess] records the pair of the incoming viewing key
    and the path under the address, and [AddLastDiversifierUsed] the path
    under the incoming viewing key; both succeed, and neither changes the
    three maps of the composite lookup, so that [GetSaplingIncomingViewingKey]
    and [GetSaplingExtendedSpendingKey] answer for every address as before. *)
Theorem diversifier_bookkeeping (addr a : SaplingPaymentAddress)
    (ivk : SaplingIncomingViewingKey) (path : blob88) (s : CBasicKeyStore) :
  let s1 := snd (AddSaplingDiversifiedAddess addr ivk path s) in
  let s2 := snd (AddLastDiversifierUsed ivk path s) in
  (fst (AddSaplingDiversifiedAddess addr ivk path s) = true
   /\ mapSaplingPaymentAddresses s1 !! addr = Some (ivk, path)
   /\ GetSaplingIncomingViewingKey a s1 = GetSaplingIncomingViewingKey a s
   /\ GetSaplingExtendedSpendingKey a s1 = GetSaplingExtendedSpendingKey a s)
  /\ (fst (AddLastDiversifierUsed ivk path s) = true
      /\ mapLastDiversifierPath s2 !! ivk = Some path
      /\ GetSaplingIncomingViewingKey a s2 = GetSaplingIncomingViewingKey a s
      /\ GetSaplingExtendedSpendingKey a s2 = GetSaplingExtendedSpendingKey a s).
Proof.
  simpl. split; (split; [reflexivity |]; split; [apply lookup_insert_eq |];
                 split; reflexivity).
Qed.

(** One more spending key keeps the spending keys reachable, when different
    full viewing keys have different incoming viewing keys and different
    default addresses. *)
Lemma AddSaplingSpendingKey_reachable (sk : SaplingExtendedSpendingKey) (s : CBasicKeyStore) :
  Inj (=) (=) in_viewing_key ->
  Inj (=) (=) DefaultAddress ->
  spending_keys_reachable s ->
  spending_keys_reachable (snd (AddSaplingSpendingKey sk s)).
Proof.
  intros Hivk Haddr Hreach extfvk sk0.
  destruct (AddSaplingSpendingKey_maps sk s) as (-> & -> & ->).
  destruct (decide (ToXFVK sk = extfvk)) as [<- | Hne].
  - intros _. rewrite !lookup_insert_eq. auto.
  - rewrite lookup_insert_ne by exact Hne. intros Hsk.
    destruct (Hreach extfvk sk0 Hsk) as [Hf Hi].
    rewrite !lookup_insert_ne; [auto | |].
    + intros Heq. apply Haddr in Heq. contradiction.
    + intros Heq. apply Hivk in Heq. contradiction.
Qed.

Lemma add_spending_keys_reachable (sks : list SaplingExtendedSpendingKey) :
  Inj (=) (=) in_viewing_key ->
  Inj (=) (=) DefaultAddress ->
  forall s, spending_keys_reachable s -> spending_keys_reachable (add_spending_keys sks s).
Proof.
  intros Hivk Haddr. induction sks as [| sk sks IH]; intros s Hreach; [exact Hreach |].
  change (spending_keys_reachable
            (add_spending_keys sks (snd (AddSaplingSpendingKey sk s)))).
  apply IH. apply AddSaplingSpendingKey_reachable; assumption.
Qed.

Lemma add_spending_keys_stored (sk : SaplingExtendedSpendingKey)
    (sks : list SaplingExtendedSpendingKey) :
  Inj (=) (=) ToXFVK ->
  forall s,
    mapSaplingSpendingKeys s !! ToXFVK sk = Some sk \/ sk ∈ sks ->
    mapSaplingSpendingKeys (add_spending_keys sks s) !! ToXFVK sk = Some sk.
Proof.
  intros Hinj. induction sks as [| x sks IH]; intros s Hsk.
  - destruct Hsk as [Hsk | Hin]; [exact Hsk | inversion Hin].
  - change (mapSaplingSpendingKeys
              (add_spending_keys sks (snd (AddSaplingSpendingKey x s))) !! ToXFVK sk
            = Some sk).
    apply IH.
    destruct (AddSaplingSpendingKey_maps x s) as (_ & _ & ->).
    destruct (decide (ToXFVK x = ToXFVK sk)) as [Heq | Hne].
    + left. apply Hinj in Heq as ->. apply lookup_insert_eq.
    + destruct Hsk as [Hsk | Hin].
      * left. rewrite lookup_insert_ne; [exact Hsk | exact Hne].
      * right. apply elem_of_cons in Hin as [-> | Hin]; [contradiction | exact Hin].
Qed.

(** X14: a wallet that only adds spending keys can spend from the default
    address of each of them.  When the three derivations ([ToXFVK], the
    incoming viewing key and the default address of a full viewing key) send
    different keys to different values, then after [AddSaplingSpendingKey] for
    every key of a list, on a store whose spending keys were reachable (the
    empty store is one), the composite lookup of the default address of every
    key of the list returns that key. *)
Theorem add_spending_keys_all_retrievable (sks : list SaplingExtendedSpendingKey)
    (sk : SaplingExtendedSpendingKey) (s : CBasicKeyStore) :
  Inj (=) (=) ToXFVK ->
  Inj (=) (=) in_viewing_key ->
  Inj (=) (=) DefaultAddress ->
  spending_keys_reachable s ->
  sk ∈ sks ->
  GetSaplingExtendedSpendingKey (DefaultAddress (ToXFVK sk)) (add_spending_keys sks s)
  = Some sk.
Proof.
  intros Hx Hivk Haddr Hreach Hin.
  pose proof (add_spending_keys_stored sk sks Hx s (or_intror Hin)) as Hsk.
  destruct (add_spending_keys_reachable sks Hivk Haddr s Hreach _ _ Hsk) as [Hf Hi].
  unfold GetSaplingExtendedSpendingKey, GetSaplingIncomingViewingKey,
    GetSaplingFullViewingKey, GetSaplingSpendingKey.
  rewrite Hi, Hf. exact Hsk.
Qed.

(** X15: the two lock partitions are independent.  The operations on
    transparent keys, scripts and watch-only entries leave every member
    guarded by [cs_SpendingKeyStore] as it is, and the operations on the seed
    and on shielded keys leave every member guarded by [cs_KeyStore] as it
    is. *)
Theorem lock_partitions_independent (s : CBasicKeyStore) :
  (forall key pubkey, shielded_members (snd (AddKeyPubKey key pubkey s)) = shielded_members s)
  /\ (forall script, shielded_members (snd (AddCScript script s)) = shielded_members s)
  /\ (forall dest, shielded_members (snd (AddWatchOnly dest s)) = shielded_members s
                   /\ shielded_members (snd (RemoveWatchOnly dest s)) = shielded_members s)
  /\ (forall extfvk,
        shielded_members (snd (AddSaplingWatchOnly extfvk s)) = shielded_members s
        /\ shielded_members (snd (RemoveSaplingWatchOnly extfvk s)) = shielded_members s)
  /\ (forall seed, transparent_members (snd (SetHDSeed seed s)) = transparent_members s)
  /\ (forall sk, transparent_members (snd (AddSproutSpendingKey sk s)) = transparent_members s)
  /\ (forall vk, transparent_members (snd (AddSproutViewingKey vk s)) = transparent_members s
                 /\ transparent_members (snd (RemoveSproutViewingKey vk s))
                    = transparent_members s)
  /\ (forall sk, transparent_members (snd (AddSaplingSpendingKey sk s)) = transparent_members s)
  /\ (forall extfvk,
        transparent_members (snd (AddSaplingFullViewingKey extfvk s)) = transparent_members s)
  /\ (forall ivk addr path,
        transparent_members (snd (AddSaplingIncomingViewingKey ivk addr s))
        = transparent_members s
        /\ transparent_members (snd (AddSaplingDiversifiedAddess addr ivk path s))
           = transparent_members s
        /\ transparent_members (snd (AddLastDiversifierUsed ivk path s))
           = transparent_members s).
Proof.
  repeat split; intros; try reflexivity.
  - unfold AddCScript.
    match goal with |- context [if ?c then _ else _] => destruct c end; reflexivity.
  - unfold SetHDSeed. destruct (negb (IsNull (hdSeed s))); reflexivity.
Qed.

End SaplingKeys.


Section NoteGrouping.
Context `{Primitives}.

(** ** The consolidation job: the allow-list and the grouping of the notes *)

Lemma allow_list_fold (e : Env) (a : SaplingPaymentAddress) (vs : list string) :
  forall addresses : gset SaplingPaymentAddress,
    a ∈ fold_left (fun addresses v =>
                     match DecodePaymentAddress e v with
                     | SaplingAddress saplingAddress => {[saplingAddress]} ∪ addresses
                     | _ => addresses
                     end) vs addresses
    <-> a ∈ addresses \/ exists v, v ∈ vs /\ DecodePaymentAddress e v = SaplingAddress a.
Proof.
  induction vs as [| v vs IH]; intros addresses; simpl.
  - split; [auto | intros [Hin | (v & Hv & _)]; [exact Hin | inversion Hv]].
  - rewrite IH. split.
    + intros [Hin | (v' & Hv' & Hdec)].
      * destruct (DecodePaymentAddress e v) as [| sprout | sapling] eqn:Hdec; auto.
        apply elem_of_union in Hin as [Hin | Hin]; [| auto].
        apply elem_of_singleton in Hin as ->.
        right. exists v. split; [apply list_elem_of_here | exact Hdec].
      * right. exists v'. split; [apply list_elem_of_further; exact Hv' | exact Hdec].
    + intros [Hin | (v' & Hv' & Hdec)].
      * left. destruct (DecodePaymentAddress e v); auto.
        apply elem_of_union. auto.
      * apply elem_of_cons in Hv' as [-> | Hv'].
        -- left. rewrite Hdec. apply elem_of_union. left. apply elem_of_singleton. reflexivity.
        -- right. exists v'. auto.
Qed.

(** X16: an address is on the allow-list exactly when the allow-list is in
    use and one of the configured strings decodes to it as a Sapling address;
    strings that do not decode, or decode to a Sprout address, add nothing. *)
Theorem allow_list_spec (e : Env) (a : SaplingPaymentAddress) :
  a ∈ allow_list e
  <-> fConsolidationMapUsed e = true
      /\ exists v, v ∈ consolidatesaplingaddress e
                   /\ DecodePaymentAddress e v = SaplingAddress a.
Proof.
  unfold allow_list. destruct (fConsolidationMapUsed e).
  - rewrite allow_list_fold. split.
    + intros [Hin | Hex]; [exfalso; exact (not_elem_of_empty a Hin) | auto].
    + intros [_ Hex]. auto.
  - split; [intros Hin; exfalso; exact (not_elem_of_empty a Hin) | intros [Hf _]; discriminate].
Qed.

(** The keys of the map under construction. *)
Lemma map_find_None (k : SaplingPaymentAddress) (m : AddressMap) :
  map_find k m = None <-> k ∉ map fst m.
Proof.
  induction m as [| [k' v] m IH]; simpl.
  - split; [intros _ Hin; inversion Hin | reflexivity].
  - rewrite not_elem_of_cons. destruct (decide (k' = k)) as [-> | Hne].
    + split; [discriminate | intros [Hk _]; contradiction].
    + rewrite IH. split; [intros Hn; split; [congruence | exact Hn] | intros [_ Hn]; exact Hn].
Qed.

Lemma map_push_back_keys (k : SaplingPaymentAddress) (entry : SaplingNoteEntry)
    (m : AddressMap) :
  map fst (map_push_back k entry m) = map fst m.
Proof.
  induction m as [| [k' v] m IH]; simpl; [reflexivity |].
  destruct (decide (k' = k)); simpl; [reflexivity | rewrite IH; reflexivity].
Qed.

Lemma map_insert_new_keys (k : SaplingPaymentAddress) (entries : list SaplingNoteEntry)
    (m : AddressMap) :
  map fst (map_insert_new k entries m) ≡ₚ k :: map fst m.
Proof.
  induction m as [| [k' v] m IH]; simpl; [reflexivity |].
  destruct (addr_lt k k'); simpl; [reflexivity |].
  rewrite IH. apply Permutation_swap.
Qed.

Lemma map_find_push_back (k a : SaplingPaymentAddress) (entry : SaplingNoteEntry)
    (m : AddressMap) :
  map_find a (map_push_back k entry m)
  = if decide (k = a) then (fun v => v ++ [entry]) <$> map_find a m else map_find a m.
Proof.
  induction m as [| [k' v] m IH]; simpl.
  - destruct (decide (k = a)); reflexivity.
  - destruct (decide (k' = k)) as [-> | Hne]; simpl.
    + destruct (decide (k = a)); reflexivity.
    + destruct (decide (k' = a)) as [-> | Hne'].
      * destruct (decide (k = a)); [congruence | reflexivity].
      * exact IH.
Qed.

Lemma map_find_insert_new (k a : SaplingPaymentAddress) (entries : list SaplingNoteEntry)
    (m : AddressMap) :
  map_find k m = None ->
  map_find a (map_insert_new k entries m)
  = if decide (k = a) then Some entries else map_find a m.
Proof.
  induction m as [| [k' v] m IH]; simpl; intros Hnone.
  - reflexivity.
  - destruct (decide (k' = k)) as [-> | Hne]; [discriminate |].
    destruct (addr_lt k k'); simpl.
    + destruct (decide (k = a)); [reflexivity |].
      reflexivity.
    + destruct (decide (k' = a)) as [-> | Hne'].
      * destruct (decide (k = a)); [congruence | reflexivity].
      * apply IH. exact Hnone.
Qed.

Lemma group_step_find (e : Env) (m : AddressMap) (entry : SaplingNoteEntry)
    (a : SaplingPaymentAddress) :
  map_find a (group_step e m entry)
  = if bool_decide (note_accepted e entry = true /\ address entry = a)
    then Some (match map_find a m with Some v => v ++ [entry] | None => [entry] end)
    else map_find a m.
Proof.
  unfold group_step, note_accepted.
  destruct (bool_decide (address entry ∈ allow_list e) || negb (fConsolidationMapUsed e)).
  - destruct (map_find (address entry) m) as [v |] eqn:Hfind.
    + rewrite map_find_push_back.
      destruct (decide (address entry = a)) as [<- | Hne].
      * rewrite bool_decide_eq_true_2 by auto. rewrite Hfind. reflexivity.
      * rewrite bool_decide_eq_false_2 by (intros [_ ?]; contradiction). reflexivity.
    + rewrite map_find_insert_new by exact Hfind.
      destruct (decide (address entry = a)) as [<- | Hne].
      * rewrite bool_decide_eq_true_2 by auto. rewrite Hfind. reflexivity.
      * rewrite bool_decide_eq_false_2 by (intros [_ ?]; contradiction). reflexivity.
  - rewrite bool_decide_eq_false_2 by (intros [? _]; discriminate). reflexivity.
Qed.

Lemma group_fold_find (e : Env) (a : SaplingPaymentAddress)
    (saplingEntries : list SaplingNoteEntry) :
  forall m : AddressMap,
    map_find a (fold_left (group_step e) saplingEntries m)
    = match map_find a m, notes_of e a saplingEntries with
      | Some v, more => Some (v ++ more)
      | None, [] => None
      | None, more => Some more
      end.
Proof.
  unfold notes_of.
  induction saplingEntries as [| entry rest IH]; intros m; simpl.
  - destruct (map_find a m); [rewrite app_nil_r |]; reflexivity.
  - rewrite IH, group_step_find. rewrite !filter_cons.
    destruct (decide (note_accepted e entry = true)) as [Hacc | Hacc].
    + rewrite filter_cons. destruct (decide (address entry = a)) as [Ha | Ha].
      * rewrite bool_decide_eq_true_2 by auto.
        destruct (map_find a m); [rewrite <- app_assoc |]; reflexivity.
      * rewrite bool_decide_eq_false_2 by (intros [_ ?]; contradiction). reflexivity.
    + rewrite bool_decide_eq_false_2 by (intros [? _]; contradiction). reflexivity.
Qed.

Lemma group_by_address_find_any (e : Env) (a : SaplingPaymentAddress)
    (saplingEntries : list SaplingNoteEntry) :
  map_find a (group_by_address e saplingEntries)
  = match notes_of e a saplingEntries with
    | [] => None
    | group => Some group
    end.
Proof.
  unfold group_by_address.
  change (map_find a (fold_left (group_step e) saplingEntries [])
          = match notes_of e a saplingEntries with [] => None | group => Some group end).
  rewrite group_fold_find. simpl. reflexivity.
Qed.

Lemma map_find_Some_elem (a : SaplingPaymentAddress) (g : list SaplingNoteEntry)
    (m : AddressMap) :
  map_find a m = Some g -> (a, g) ∈ m.
Proof.
  induction m as [| [k v] m IH]; simpl; [discriminate |].
  destruct (decide (k = a)) as [-> | Hne].
  - intros Heq. injection Heq as ->. apply list_elem_of_here.
  - intros Hfind. apply list_elem_of_further, IH, Hfind.
Qed.

(** X17: the group of an address is the list of its accepted notes, in the
    order in which the wallet returned them; an address without an accepted
    note has no group. *)
Theorem group_by_address_find (e : Env) (a : SaplingPaymentAddress)
    (saplingEntries : list SaplingNoteEntry) :
  map_find a (group_by_address e saplingEntries)
  = match notes_of e a saplingEntries with
    | [] => None
    | group => Some group
    end.
Proof. apply group_by_address_find_any. Qed.

Lemma group_step_NoDup (e : Env) (m : AddressMap) (entry : SaplingNoteEntry) :
  NoDup (map fst m) -> NoDup (map fst (group_step e m entry)).
Proof.
  intros Hnd. unfold group_step.
  destruct (bool_decide (address entry ∈ allow_list e) || negb (fConsolidationMapUsed e));
    [| exact Hnd].
  destruct (map_find (address entry) m) eqn:Hfind.
  - rewrite map_push_back_keys. exact Hnd.
  - rewrite map_insert_new_keys. apply NoDup_cons. split; [| exact Hnd].
    apply map_find_None. exact Hfind.
Qed.

Lemma group_fold_NoDup (e : Env) (saplingEntries : list SaplingNoteEntry) :
  forall m, NoDup (map fst m) -> NoDup (map fst (fold_left (group_step e) saplingEntries m)).
Proof.
  induction saplingEntries as [| entry rest IH]; intros m Hnd; simpl; [exact Hnd |].
  apply IH, group_step_NoDup, Hnd.
Qed.

Lemma map_find_of_NoDup (a : SaplingPaymentAddress) (g : list SaplingNoteEntry)
    (m : AddressMap) :
  NoDup (map fst m) -> (a, g) ∈ m -> map_find a m = Some g.
Proof.
  induction m as [| [k v] m IH]; simpl; intros Hnd Hin; [inversion Hin |].
  apply NoDup_cons in Hnd as [Hk Hnd].
  apply elem_of_cons in Hin as [Heq | Hin].
  - injection Heq as -> ->. destruct (decide (k = k)); [reflexivity | contradiction].
  - destruct (decide (k = a)) as [-> | Hne]; [| auto].
    exfalso. apply Hk. apply list_elem_of_fmap. exists (a, g). auto.
Qed.

Lemma group_by_address_NoDup (e : Env) (saplingEntries : list SaplingNoteEntry) :
  NoDup (map fst (group_by_address e saplingEntries)).
Proof. apply (group_fold_NoDup e saplingEntries []). apply NoDup_nil. trivial. Qed.

Lemma group_by_address_member (e : Env) (saplingEntries : list SaplingNoteEntry)
    (a : SaplingPaymentAddress) (group : list SaplingNoteEntry) :
  (a, group) ∈ group_by_address e saplingEntries ->
  group = notes_of e a saplingEntries /\ group <> [].
Proof.
  intros Hin.
  pose proof (map_find_of_NoDup a group _ (group_by_address_NoDup e saplingEntries) Hin)
    as Hfind.
  unfold group_by_address in Hfind.
  change (map_find a (fold_left (group_step e) saplingEntries []) = Some group) in Hfind.
  rewrite group_fold_find in Hfind. simpl in Hfind.
  destruct (notes_of e a saplingEntries) as [| x more]; [discriminate |].
  injection Hfind as <-. split; [reflexivity | discriminate].
Qed.

(** X18: the loop over the addresses visits no address twice, and what it
    visits for an address is never empty: it is the list of all the accepted
    notes of that address, in the order of the wallet. *)
Theorem group_by_address_groups (e : Env) (saplingEntries : list SaplingNoteEntry) :
  NoDup (map fst (group_by_address e saplingEntries))
  /\ forall a group,
       (a, group) ∈ group_by_address e saplingEntries ->
       group = notes_of e a saplingEntries /\ group <> [].
Proof.
  split; [apply group_by_address_NoDup |].
  intros a group. apply group_by_address_member.
Qed.

(** X28: the allow-list at work.  When it is in use, every address that the
    loop visits is one that a configured string decodes to; when none of the
    configured strings decodes to a Sapling address, the loop visits no
    address at all.  When it is not in use, every address with a note is
    visited. *)
Theorem allow_list_filters_groups (e : Env) (saplingEntries : list SaplingNoteEntry) :
  (fConsolidationMapUsed e = true ->
   (forall a group,
      (a, group) ∈ group_by_address e saplingEntries ->
      exists v, v ∈ consolidatesaplingaddress e
                /\ DecodePaymentAddress e v = SaplingAddress a)
   /\ ((forall v a, v ∈ consolidatesaplingaddress e ->
                    DecodePaymentAddress e v <> SaplingAddress a) ->
       group_by_address e saplingEntries = []))
  /\ (fConsolidationMapUsed e = false ->
      forall entry, entry ∈ saplingEntries ->
                    exists group, (address entry, group) ∈ group_by_address e saplingEntries
                                  /\ entry ∈ group).
Proof.
  assert (Hvisit : fConsolidationMapUsed e = true ->
                   forall a group,
                     (a, group) ∈ group_by_address e saplingEntries ->
                     exists v, v ∈ consolidatesaplingaddress e
                               /\ DecodePaymentAddress e v = SaplingAddress a).
  { intros Hused a group Hin.
    apply group_by_address_member in Hin as [Hgroup Hne].
    destruct group as [| entry more]; [contradiction |].
    assert (Hentry : entry ∈ notes_of e a saplingEntries)
      by (rewrite <- Hgroup; apply list_elem_of_here).
    unfold notes_of in Hentry.
    apply list_elem_of_filter in Hentry as [Ha Hentry].
    apply list_elem_of_filter in Hentry as [Hacc _].
    unfold note_accepted in Hacc. rewrite Hused in Hacc. simpl in Hacc.
    rewrite orb_false_r in Hacc. apply bool_decide_eq_true in Hacc.
    rewrite Ha in Hacc.
    assert (Hlist : a ∈ allow_list e -> exists v, v ∈ consolidatesaplingaddress e
                      /\ DecodePaymentAddress e v = SaplingAddress a).
    { unfold allow_list. rewrite Hused, allow_list_fold.
      intros [Hempty | Hex]; [exfalso; exact (not_elem_of_empty a Hempty) | exact Hex]. }
    exact (Hlist Hacc). }
  split.
  - intros Hused. split; [exact (Hvisit Hused) |].
    intros Hnone.
    destruct (group_by_address e saplingEntries) as [| [a group] rest] eqn:Hgroups;
      [reflexivity |].
    destruct (Hvisit Hused a group) as (v & Hv & Hdec).
    + rewrite ?Hgroups. apply list_elem_of_here.
    + exfalso. exact (Hnone v a Hv Hdec).
  - intros Hunused entry Hin.
    pose proof (group_by_address_find_any e (address entry) saplingEntries) as Hfind.
    assert (Hentry : entry ∈ notes_of e (address entry) saplingEntries).
    { unfold notes_of. apply list_elem_of_filter. split; [reflexivity |].
      apply list_elem_of_filter. split; [| exact Hin].
      unfold note_accepted. rewrite Hunused. apply orb_true_r. }
    destruct (notes_of e (address entry) saplingEntries) as [| x more] eqn:Hnotes;
      [inversion Hentry |].
    exists (x :: more). split; [| exact Hentry].
    apply map_find_Some_elem. exact Hfind.
Qed.

End NoteGrouping.


Section AddressOrder.
Context `{Primitives}.

(** The order of [std::map]: [addr_lt] is transitive, and of two different
    addresses one is below the other. *)
Hypothesis addr_lt_trans :
  forall a b c, addr_lt a b = true -> addr_lt b c = true -> addr_lt a c = true.
Hypothesis addr_lt_total :
  forall a b, a <> b -> addr_lt a b = false -> addr_lt b a = true.

Lemma map_insert_new_sorted (k : SaplingPaymentAddress) (entries : list SaplingNoteEntry)
    (m : AddressMap) :
  k ∉ map fst m ->
  StronglySorted (fun a b => addr_lt a b = true) (map fst m) ->
  StronglySorted (fun a b => addr_lt a b = true) (map fst (map_insert_new k entries m)).
Proof.
  induction m as [| [k' v] m IH]; simpl; intros Hnot Hsorted.
  - repeat constructor.
  - apply not_elem_of_cons in Hnot as [Hne Hnot].
    apply StronglySorted_inv in Hsorted as [Hsorted Hall].
    destruct (addr_lt k k') eqn:Hlt; simpl.
    + constructor; [constructor; assumption |].
      constructor; [exact Hlt |].
      eapply Forall_impl; [exact Hall |]. intros b Hb. simpl in Hb.
      eapply addr_lt_trans; eassumption.
    + constructor; [apply IH; assumption |].
      rewrite map_insert_new_keys. constructor; [| exact Hall].
      apply addr_lt_total; [exact Hne | exact Hlt].
Qed.

(** X19: under the order of [std::map], the loop over the addresses visits
    them in increasing order, whatever the order of the notes in the
    wallet. *)
Theorem group_by_address_sorted (e : Env) (saplingEntries : list SaplingNoteEntry) :
  StronglySorted (fun a b => addr_lt a b = true)
    (map fst (group_by_address e saplingEntries)).
Proof.
  unfold group_by_address.
  change (StronglySorted (fun a b => addr_lt a b = true)
            (map fst (fold_left (group_step e) saplingEntries []))).
  assert (Hgen : forall m,
             StronglySorted (fun a b => addr_lt a b = true) (map fst m) ->
             StronglySorted (fun a b => addr_lt a b = true)
               (map fst (fold_left (group_step e) saplingEntries m))).
  { induction saplingEntries as [| entry rest IH]; intros m Hm; simpl; [exact Hm |].
    apply IH. unfold group_step.
    destruct (bool_decide (address entry ∈ allow_list e) || negb (fConsolidationMapUsed e));
      [| exact Hm].
    destruct (map_find (address entry) m) eqn:Hfind.
    - rewrite map_push_back_keys. exact Hm.
    - apply map_insert_new_sorted; [apply map_find_None; exact Hfind | exact Hm]. }
  apply Hgen. constructor.
Qed.

End AddressOrder.


Section NoteSelection.
Context `{Primitives}.

(** ** The consolidation job: counting and selecting the notes of an address *)

Lemma count_notes_length (e : Env) (extsk : SaplingExtendedSpendingKey)
    (addr : SaplingPaymentAddress) (saplingEntries : list SaplingNoteEntry) :
  count_notes e extsk addr saplingEntries
  = Z.of_nat (length (selectable e extsk addr saplingEntries)).
Proof.
  assert (Hgen : forall n : Z,
             fold_left (fun noteCount saplingEntry =>
                          if note_selected e extsk addr saplingEntry
                          then noteCount + 1 else noteCount) saplingEntries n
             = n + Z.of_nat (length (selectable e extsk addr saplingEntries))).
  { unfold selectable.
    induction saplingEntries as [| entry rest IH]; intros n; simpl; [lia |].
    rewrite IH, filter_cons.
    destruct (note_selected e extsk addr entry); simpl.
    - destruct (decide (true = true)); [simpl; lia | contradiction].
    - destruct (decide (false = true)); [discriminate | lia]. }
  unfold count_notes. rewrite Hgen. lia.
Qed.

(** X20: the note count of an address is the number of the notes of its group
    that pass the test of line 144 (the key store maps the note's address to
    the incoming viewing key of the spending key, and the note's address is
    the group's address); it lies between 0 and the size of the group. *)
Theorem count_notes_selectable (e : Env) (extsk : SaplingExtendedSpendingKey)
    (addr : SaplingPaymentAddress) (saplingEntries : list SaplingNoteEntry) :
  count_notes e extsk addr saplingEntries
  = Z.of_nat (length (selectable e extsk addr saplingEntries))
  /\ 0 <= count_notes e extsk addr saplingEntries <= Z.of_nat (length saplingEntries).
Proof.
  rewrite count_notes_length.
  pose proof (length_filter (fun entry => note_selected e extsk addr entry = true)
                saplingEntries) as Hle.
  fold (selectable e extsk addr saplingEntries) in Hle.
  split; lia.
Qed.

Lemma select_notes_from (e : Env) (extsk : SaplingExtendedSpendingKey)
    (addr : SaplingPaymentAddress) (maxQuantity : nat)
    (saplingEntries : list SaplingNoteEntry) :
  forall (amountToSend : Z) (fromNotes : list SaplingNoteEntry),
    (length fromNotes < maxQuantity)%nat ->
    snd (select_notes e extsk addr maxQuantity saplingEntries amountToSend fromNotes)
    = fromNotes ++ take (maxQuantity - length fromNotes)
                        (selectable e extsk addr saplingEntries).
Proof.
  unfold selectable.
  induction saplingEntries as [| entry rest IH]; intros amountToSend fromNotes Hlt; simpl.
  - rewrite ?filter_nil, take_nil, app_nil_r. reflexivity.
  - rewrite filter_cons.
    destruct (note_selected e extsk addr entry); simpl.
    + destruct (decide (true = true)); [| contradiction].
      destruct (maxQuantity <=? length (fromNotes ++ [entry]))%nat eqn:Hmax.
      * apply Nat.leb_le in Hmax. rewrite length_app in Hmax. simpl in Hmax.
        replace (maxQuantity - length fromNotes)%nat with 1%nat by lia.
        simpl. rewrite take_0. reflexivity.
      * apply Nat.leb_gt in Hmax. rewrite IH by exact Hmax.
        rewrite length_app in *. simpl in *.
        replace (maxQuantity - length fromNotes)%nat
          with (S (maxQuantity - (length fromNotes + 1)))%nat by lia.
        simpl. rewrite <- app_assoc. reflexivity.
    + destruct (decide (false = true)); [discriminate |].
      destruct (maxQuantity <=? length fromNotes)%nat eqn:Hmax.
      * apply Nat.leb_le in Hmax. lia.
      * apply IH. exact Hlt.
Qed.

(** X21: for a bound of at least 1, the notes selected for an address are the
    first [maxQuantity] of the notes that pass the test of line 163, in the
    order of the group; their number is the smaller of the bound and the note
    count. *)
Theorem select_notes_take (e : Env) (extsk : SaplingExtendedSpendingKey)
    (addr : SaplingPaymentAddress) (maxQuantity : nat)
    (saplingEntries : list SaplingNoteEntry) :
  (1 <= maxQuantity)%nat ->
  let fromNotes := snd (select_notes e extsk addr maxQuantity saplingEntries 0 []) in
  fromNotes = take maxQuantity (selectable e extsk addr saplingEntries)
  /\ Z.of_nat (length fromNotes)
     = Z.min (Z.of_nat maxQuantity) (count_notes e extsk addr saplingEntries).
Proof.
  intros Hmax fromNotes.
  assert (Heq : fromNotes = take maxQuantity (selectable e extsk addr saplingEntries)).
  { subst fromNotes. rewrite select_notes_from by (simpl; lia).
    simpl. rewrite Nat.sub_0_r. reflexivity. }
  split; [exact Heq |].
  rewrite Heq, length_take, count_notes_length. lia.
Qed.

End NoteSelection.


Section Runs.
Context `{Primitives}.

(** ** The consolidation job: what a run commits and reports *)

(** An iteration that commits a transaction has passed every test of the
    loop body. *)
Lemma consolidate_address_commit (e : Env) (addr : SaplingPaymentAddress)
    (saplingEntries : list SaplingNoteEntry) (l : Locals) (st : JobState)
    (extsk : SaplingExtendedSpendingKey) (tx : CTransaction) :
  GetSaplingExtendedSpendingKey addr (keystore e) = Some extsk ->
  committed (snd (consolidate_address e addr saplingEntries l st)) = committed st ++ [tx] ->
  let sel := select_notes e extsk addr (rand e (rand_calls st) mod 35 + 10)%nat
               saplingEntries 0 [] in
  (count_notes e extsk addr saplingEntries <? targetConsolidationQty e) = false
  /\ (length (snd sel) <? rand e (S (rand_calls st)) mod 10 + 2)%nat = false
  /\ Build e (configure_builder e extsk addr (snd sel) (fst sel)
                (consolidation_fee e (fst sel))) = Some tx.
Proof.
  intros Hkey Hcommit.
  assert (Hnil : forall (A : Type) (xs : list A) (x : A), xs <> xs ++ [x]).
  { intros A xs x Heq. apply (f_equal (@length A)) in Heq.
    rewrite length_app in Heq. simpl in Heq. lia. }
  revert Hcommit. unfold consolidate_address, next_rand. rewrite Hkey.
  cbv beta iota zeta. cbn [rand_calls].
  destruct (count_notes e extsk addr saplingEntries <? targetConsolidationQty e);
    [intros Hc; cbn [snd committed] in Hc; exfalso; exact (Hnil _ _ _ Hc) |].
  destruct (select_notes e extsk addr (rand e (rand_calls st) mod 35 + 10)%nat
              saplingEntries 0 []) as [amountToSend selected].
  cbn [fst snd].
  destruct (length selected <? rand e (S (rand_calls st)) mod 10 + 2)%nat;
    [intros Hc; cbn [snd committed] in Hc; exfalso; exact (Hnil _ _ _ Hc) |].
  destruct (Build e (configure_builder e extsk addr selected amountToSend
                       (consolidation_fee e amountToSend))) as [tx0 |].
  2: { intros Hc; cbn [snd] in Hc; rewrite !yield_committed in Hc.
       exfalso; exact (Hnil _ _ _ Hc). }
  match goal with |- context [if ?c then _ else _] => destruct c end.
  { intros Hc; cbn [snd] in Hc; rewrite !yield_committed in Hc.
    exfalso; exact (Hnil _ _ _ Hc). }
  intros Hc. cbn [snd] in Hc. unfold CommitAutomatedTx in Hc. cbn [committed] in Hc.
  rewrite !yield_committed in Hc. cbn [committed] in Hc.
  apply app_inv_head in Hc. injection Hc as ->. auto.
Qed.

(** X22: the size of a batch.  When the iteration for an address commits a
    transaction, the address has at least the target count of notes, and the
    notes selected for the transaction are the first [rand() % 35 + 10] of the
    address's notes that pass the test of line 163: there are at least 2 and
    at most 44 of them, and each of them is a note of that address. *)
Theorem committed_batch_size (e : Env) (addr : SaplingPaymentAddress)
    (saplingEntries : list SaplingNoteEntry) (l : Locals) (st : JobState)
    (extsk : SaplingExtendedSpendingKey) (tx : CTransaction) :
  GetSaplingExtendedSpendingKey addr (keystore e) = Some extsk ->
  committed (snd (consolidate_address e addr saplingEntries l st)) = committed st ++ [tx] ->
  let maxQuantity := (rand e (rand_calls st) mod 35 + 10)%nat in
  let fromNotes := snd (select_notes e extsk addr maxQuantity saplingEntries 0 []) in
  targetConsolidationQty e <= count_notes e extsk addr saplingEntries
  /\ fromNotes = take maxQuantity (selectable e extsk addr saplingEntries)
  /\ (2 <= length fromNotes <= 44)%nat
  /\ Forall (fun entry => address entry = addr) fromNotes.
Proof.
  intros Hkey Hcommit maxQuantity fromNotes.
  destruct (consolidate_address_commit e addr saplingEntries l st extsk tx Hkey Hcommit)
    as (Hcount & Hmin & _).
  fold maxQuantity in Hmin. fold fromNotes in Hmin.
  apply Z.ltb_ge in Hcount. apply Nat.ltb_ge in Hmin.
  assert (Hrange : (10 <= maxQuantity <= 44)%nat).
  { subst maxQuantity.
    pose proof (Nat.mod_upper_bound (rand e (rand_calls st)) 35 ltac:(lia)). lia. }
  assert (Heq : fromNotes = take maxQuantity (selectable e extsk addr saplingEntries)).
  { subst fromNotes. rewrite select_notes_from by (simpl; lia).
    simpl. rewrite Nat.sub_0_r. reflexivity. }
  split; [exact Hcount |]. split; [exact Heq |]. split.
  - split; [lia |]. rewrite Heq, length_take. lia.
  - rewrite Heq. apply Forall_take. unfold selectable.
    apply Forall_forall. intros entry Hin.
    apply list_elem_of_filter in Hin as [Hsel _].
    unfold note_selected in Hsel. apply andb_true_iff in Hsel as [_ Haddr].
    apply bool_decide_eq_true in Haddr. exact Haddr.
Qed.

(** What [add_spends] adds: spends of the first notes, in their order, all
    with the given key and anchor. *)
Lemma add_spends_added (k : SaplingExpandedSpendingKey) (anchor : uint256)
    (witnesses : list (option SaplingWitness)) (notes : list SaplingNote) :
  forall (i : nat) (b : TransactionBuilder),
    nHeight (add_spends k anchor witnesses notes i b) = nHeight b
    /\ exists added,
         spends (add_spends k anchor witnesses notes i b) = spends b ++ added
         /\ map spend_note added `prefix_of` notes
         /\ Forall (fun sp => spend_expsk sp = k /\ spend_anchor sp = anchor) added.
Proof.
  induction notes as [| n rest IH]; intros i b; simpl.
  - split; [reflexivity |]. exists []. rewrite app_nil_r.
    split; [reflexivity |]. split; [apply prefix_nil | constructor].
  - destruct (witnesses !! i) as [[w |] |].
    + destruct (IH (S i) (AddSaplingSpend k n anchor w b)) as (Hh & added & Hs & Hp & Hall).
      split; [exact Hh |].
      exists (mkSpend k n anchor w :: added). simpl in Hs. rewrite <- app_assoc in Hs.
      split; [exact Hs |]. split.
      * simpl. apply prefix_cons. exact Hp.
      * constructor; [auto | exact Hall].
    + split; [reflexivity |]. exists []. rewrite app_nil_r.
      split; [reflexivity |]. split; [apply prefix_nil | constructor].
    + split; [reflexivity |]. exists []. rewrite app_nil_r.
      split; [reflexivity |]. split; [apply prefix_nil | constructor].
Qed.

(** X23: what a committed transaction is built from.  The builder that built
    it was created for the target height and expires 40 blocks after the tip;
    its spends are spends of the first of the selected notes, in their order
    (never of another note), each with the expanded spending key of the
    address and the anchor that came with the witnesses; when every selected
    note has a witness, every selected note is spent. *)
Theorem committed_transaction_spends (e : Env) (addr : SaplingPaymentAddress)
    (saplingEntries : list SaplingNoteEntry) (l : Locals) (st : JobState)
    (extsk : SaplingExtendedSpendingKey) (tx : CTransaction) :
  GetSaplingExtendedSpendingKey addr (keystore e) = Some extsk ->
  committed (snd (consolidate_address e addr saplingEntries l st)) = committed st ++ [tx] ->
  let fromNotes :=
    snd (select_notes e extsk addr (rand e (rand_calls st) mod 35 + 10)%nat
           saplingEntries 0 []) in
  let witnesses := fst (GetSaplingNoteWitnesses e (map op fromNotes)) in
  let anchor := snd (GetSaplingNoteWitnesses e (map op fromNotes)) in
  exists builder : TransactionBuilder,
    Build e builder = Some tx
    /\ nHeight builder = targetHeight_ e
    /\ expiryHeight builder = Some (int_add (tipHeight e) CONSOLIDATION_EXPIRY_DELTA)
    /\ map spend_note (spends builder) `prefix_of` map note fromNotes
    /\ Forall (fun sp => spend_expsk sp = expsk extsk /\ spend_anchor sp = anchor)
         (spends builder)
    /\ ((forall j, (j < length fromNotes)%nat -> exists w, witnesses !! j = Some (Some w)) ->
        map spend_note (spends builder) = map note fromNotes).
Proof.
  intros Hkey Hcommit fromNotes witnesses anchor.
  destruct (consolidate_address_commit e addr saplingEntries l st extsk tx Hkey Hcommit)
    as (_ & _ & Hbuild).
  fold fromNotes in Hbuild.
  eexists. split; [exact Hbuild |].
  destruct (configure_builder_fee_output e extsk addr fromNotes
              (fst (select_notes e extsk addr (rand e (rand_calls st) mod 35 + 10)%nat
                      saplingEntries 0 []))
              (consolidation_fee e
                 (fst (select_notes e extsk addr (rand e (rand_calls st) mod 35 + 10)%nat
                         saplingEntries 0 [])))) as (_ & _ & Hexp).
  split; [| split; [exact Hexp |]].
  all: unfold configure_builder; subst witnesses anchor;
    destruct (GetSaplingNoteWitnesses e (map op fromNotes)) as [ws an]; cbn [fst snd nHeight
      spends SetFee AddSaplingOutput].
  - destruct (add_spends_added (expsk extsk) an ws (map note fromNotes) 0
                (SetExpiryHeight (int_add (tipHeight e) CONSOLIDATION_EXPIRY_DELTA)
                   (newTransactionBuilder (targetHeight_ e)))) as [Hh _].
    rewrite Hh. reflexivity.
  - destruct (add_spends_added (expsk extsk) an ws (map note fromNotes) 0
                (SetExpiryHeight (int_add (tipHeight e) CONSOLIDATION_EXPIRY_DELTA)
                   (newTransactionBuilder (targetHeight_ e))))
      as (_ & added & Hs & Hp & Hall).
    rewrite Hs. simpl. split; [exact Hp |]. split; [exact Hall |].
    intros Hw.
    pose proof (add_spends_complete (expsk extsk) an ws (map note fromNotes) 0
                  (SetExpiryHeight (int_add (tipHeight e) CONSOLIDATION_EXPIRY_DELTA)
                     (newTransactionBuilder (targetHeight_ e)))) as Hc.
    rewrite Hs in Hc. simpl in Hc. apply Hc.
    intros j Hj. rewrite length_map in Hj. apply Hw. exact Hj.
Qed.




End Runs.


Section RunEdges.
Context `{Primitives}.

(** ** The consolidation job: runs that commit nothing *)

(** X25: the activation window.  For a target height at which adding 40 does
    not overflow an [int], a run is given up exactly when an activation is
    scheduled at a height of at most the target height plus 40; a run that is
    given up returns [true], reports no transaction, no amount and no
    identifier, and leaves the commits, the schedule, the random source and
    the state of the operation as they were. *)
Theorem activation_window (e : Env) (st : JobState) :
  (- 2 ^ 31 <= targetHeight_ e + 40 < 2 ^ 31 ->
   (too_close_to_activation e = true
    <-> exists h, NextActivationHeight e (targetHeight_ e) = Some h
                  /\ h <= targetHeight_ e + 40))
  /\ (too_close_to_activation e = true ->
      let st' := snd (main_impl e st) in
      fst (main_impl e st) = true
      /\ result_ st' = Some (mkResult 0 0 [])
      /\ committed st' = committed st
      /\ schedule_untouched st st'
      /\ rand_calls st' = rand_calls st
      /\ state_ st' = state_ st).
Proof.
  split.
  - intros Hrange. unfold too_close_to_activation, int_add, CONSOLIDATION_EXPIRY_DELTA.
    assert (Hint : to_int32 (targetHeight_ e + 40) = targetHeight_ e + 40).
    { unfold to_int32. rewrite Z.mod_small; lia. }
    rewrite Hint.
    destruct (NextActivationHeight e (targetHeight_ e)) as [h |].
    + rewrite Z.leb_le. split.
      * intros Hle. exists h. auto.
      * intros (h' & Heq & Hle). injection Heq as <-. exact Hle.
    + split; [discriminate | intros (h' & Heq & _); discriminate].
  - intros Hclose. unfold main_impl. rewrite Hclose. simpl.
    repeat split.
Qed.

(** An address that does not reach the target changes nothing but the count
    of the calls of [rand()]. *)
Lemma consolidate_address_below_target (e : Env) (addr : SaplingPaymentAddress)
    (saplingEntries : list SaplingNoteEntry) (l : Locals) (st : JobState) :
  reaches_target e (addr, saplingEntries) = false ->
  exists n,
    consolidate_address e addr saplingEntries l st
    = (Continue, l,
       mkJob (state_ st) (error_code st) (error_message st) (result_ st)
         (nextConsolidation st) (fConsolidationRunning st) (committed st) n).
Proof.
  unfold reaches_target, consolidate_address, next_rand. cbn [fst snd].
  destruct (GetSaplingExtendedSpendingKey addr (keystore e)) as [extsk |].
  - intros Hreach. apply negb_false_iff in Hreach. cbv beta iota zeta.
    rewrite Hreach. eexists. reflexivity.
  - intros _. exists (rand_calls st). destruct st; reflexivity.
Qed.

Lemma consolidate_addresses_below_target (e : Env) (mapAddresses : AddressMap) :
  forallb (fun g => negb (reaches_target e g)) mapAddresses = true ->
  forall (l : Locals) (st : JobState),
    exists n,
      consolidate_addresses e mapAddresses l st
      = (l, mkJob (state_ st) (error_code st) (error_message st) (result_ st)
              (nextConsolidation st) (fConsolidationRunning st) (committed st) n).
Proof.
  induction mapAddresses as [| [addr saplingEntries] rest IH]; intros Hall l st.
  - exists (rand_calls st). destruct st; reflexivity.
  - cbn [forallb] in Hall. apply andb_true_iff in Hall as [Hhead Hrest].
    apply negb_true_iff in Hhead.
    destruct (consolidate_address_below_target e addr saplingEntries l st Hhead) as [n Hbody].
    simpl. rewrite Hbody.
    destruct (IH Hrest l (mkJob (state_ st) (error_code st) (error_message st) (result_ st)
                            (nextConsolidation st) (fConsolidationRunning st)
                            (committed st) n)) as [n' Hloop].
    exists n'. rewrite Hloop. reflexivity.
Qed.

(** X26: nothing to consolidate.  When a run is not given up and no address
    with a spending key reaches the target count (an empty wallet included),
    the run commits nothing, reports no transaction, the amount 0 and no
    identifier, and marks itself complete. *)
Theorem nothing_to_consolidate (e : Env) (st : JobState) :
  too_close_to_activation e = false ->
  forallb (fun g => negb (reaches_target e g)) (collect_notes e) = true ->
  let st' := snd (main_impl e st) in
  committed st' = committed st
  /\ result_ st' = Some (mkResult 0 0 [])
  /\ marked_complete e st'.
Proof.
  intros Hclose Hall. unfold main_impl. rewrite Hclose.
  destruct (consolidate_addresses_below_target e (collect_notes e) Hall (mkLocals 0 [] 0 true)
              (yield e AtNoteEnumeration st)) as [n Hloop].
  rewrite Hloop. cbn [consolidationComplete snd].
  unfold marked_complete. simpl. rewrite yield_committed. repeat split.
Qed.




End RunEdges.


(** ** Runs of the small instance *)

Import Small.

(** C1, on the code: on the empty store, after
    [AddSaplingIncomingViewingKey(207, 307)] the address 307 maps to 207, and
    after [AddSaplingIncomingViewingKey(208, 307)] it maps to 208; both calls
    return [true].  The second call overwrites the mapping. *)
Theorem AddSaplingIncomingViewingKey_overwrites :
  let r1 := @AddSaplingIncomingViewingKey prim 207%N 307%N (@empty_keystore prim []) in
  let r2 := @AddSaplingIncomingViewingKey prim 208%N 307%N (snd r1) in
  fst r1 = true
  /\ fst r2 = true
  /\ @GetSaplingIncomingViewingKey prim 307%N (snd r1) = Some 207%N
  /\ @GetSaplingIncomingViewingKey prim 307%N (snd r2) = Some 208%N.
Proof.
  intros r1 r2.
  destruct (@AddSaplingIncomingViewingKey_last_wins prim 207%N 208%N 307%N
              (@empty_keystore prim [])) as (H1 & H2 & H3).
  split; [exact H1 |]. split; [exact H2 |]. split; [reflexivity | exact H3].
Qed.

(** C2, on the code: the wallet has two notes of one address, the target
    count is 2, the job selects both, builds and commits one transaction; it
    reports one identifier and [num_tx_created = 0]. *)
Theorem numTxCreated_stays_zero :
  let st' := @main prim (env two_notes all_witnesses build_any rand_zero no_cancel)
               (@new_job prim 0) in
  committed st' = [([60000; 70000], 120000, 10000)]
  /\ result_ st' = Some (@mkResult 0 250000 ["tx2"]%string).
Proof. vm_compute. split; reflexivity. Qed.

(** C4, on the code: the witness of the second of the two selected notes is
    missing; the builder still gets the fee and the output for both notes,
    [Build] is called, and the transaction that is committed has one spend. *)
Theorem missing_witness_still_builds :
  let e := env two_notes witness_2_missing build_any rand_zero no_cancel in
  let st' := @main prim e (@new_job prim 0) in
  snd (@select_notes prim e 7%N 307%N 10 two_notes 0 []) = two_notes
  /\ fst (witness_2_missing [1%N; 2%N]) = [Some 1%N; None]
  /\ committed st' = [([60000], 120000, 10000)].
Proof. vm_compute. repeat split; reflexivity. Qed.

(** C5, on the code: [cancel()] is called before the witnesses of the address
    are fetched; the job observes it after [Build] and commits nothing, and
    [main] then sets the state to [SUCCESS]. *)
Theorem cancelled_run_ends_SUCCESS :
  let e := env two_notes all_witnesses build_any rand_zero cancel_before_witnesses in
  let st' := @main prim e (@new_job prim 0) in
  cancel_at e (@AtWitnessRetrieval prim 307%N) = true
  /\ committed st' = []
  /\ state_ st' = SUCCESS.
Proof. vm_compute. repeat split; reflexivity. Qed.

(** C6, on the code: for one committed transaction that consolidates notes
    worth 130000 into an output of 120000 the job reports 250000; for a
    transaction that the builder fails to build, and that is never committed,
    it reports 130000. *)
Theorem amountConsolidated_counts_twice :
  let committing := @main prim (env two_notes all_witnesses build_any rand_zero no_cancel)
                      (@new_job prim 0) in
  let failing := @main prim (env two_notes all_witnesses build_none rand_zero no_cancel)
                   (@new_job prim 0) in
  (committed committing = [([60000; 70000], 120000, 10000)]
   /\ amount_consolidated <$> result_ committing = Some 250000)
  /\ (committed failing = []
      /\ amount_consolidated <$> result_ failing = Some 130000).
Proof. vm_compute. repeat split; reflexivity. Qed.

(** C3 as stated fails: the only address has 2 notes, the target count; with
    the random minimum 11 it is skipped at step 4c, so every address is
    skipped at step 4b or 4c, and the run does not mark itself complete. *)
Lemma complete_iff_all_skipped_fails :
  let e := env two_notes all_witnesses build_any rand_zero_nine no_cancel in
  let st := @new_job prim 0 in
  ~ (marked_complete e (snd (@main_impl prim e st))
     <-> all_skipped e (collect_notes e) (rand_calls st) = true).
Proof.
  intros e st [_ Hback].
  assert (Hskipped : all_skipped e (collect_notes e) (rand_calls st) = true)
    by (vm_compute; reflexivity).
  apply Hback in Hskipped as [Hnext _].
  vm_compute in Hnext. discriminate Hnext.
Qed.

(** The key-store theorems at concrete stores. *)
Lemma GetSaplingExtendedSpendingKey_links_and_roundtrip_witness :
  let no_ivk := @empty_keystore prim [] in
  let no_fvk := snd (@AddSaplingIncomingViewingKey prim 207%N 307%N no_ivk) in
  let no_sk := snd (@AddSaplingFullViewingKey prim 107%N no_ivk) in
  @GetSaplingExtendedSpendingKey prim 307%N no_ivk = None
  /\ @GetSaplingExtendedSpendingKey prim 307%N no_fvk = None
  /\ @GetSaplingExtendedSpendingKey prim 307%N no_sk = None
  /\ @GetSaplingExtendedSpendingKey prim 307%N
       (snd (@AddSaplingSpendingKey prim 7%N no_ivk)) = Some 7%N.
Proof.
  intros no_ivk no_fvk no_sk.
  split; [| split; [| split]].
  - apply (proj1 (@GetSaplingExtendedSpendingKey_links_and_roundtrip prim no_ivk 307%N 7%N)).
    reflexivity.
  - apply (proj1 (proj2 (@GetSaplingExtendedSpendingKey_links_and_roundtrip prim
                           no_fvk 307%N 7%N)) 207%N); reflexivity.
  - apply (proj1 (proj2 (proj2 (@GetSaplingExtendedSpendingKey_links_and_roundtrip prim
                                  no_sk 307%N 7%N))) 207%N 107%N); reflexivity.
  - apply (proj2 (proj2 (proj2 (proj2 (@GetSaplingExtendedSpendingKey_links_and_roundtrip
                                         prim no_ivk 307%N 7%N))))).
Defined.

Lemma SetHDSeed_write_once_witness :
  let s := @empty_keystore prim [] in
  let s' := snd (@SetHDSeed prim [1%N] s) in
  @SetHDSeed prim [2%N] s' = (false, s')
  /\ @GetHDSeed prim s' = Some [1%N]
  /\ @GetHDSeed prim (snd (@SetHDSeed prim [2%N] s')) = Some [1%N].
Proof.
  intros s s'.
  apply (@SetHDSeed_write_once prim [1%N] [2%N] s s'); reflexivity.
Defined.

Lemma RemoveSproutViewingKey_frame_witness :
  let s := @empty_keystore prim [] in
  let t := snd (@RemoveSproutViewingKey prim 5%N (snd (@AddSproutSpendingKey prim 0%N s))) in
  is_Some (@mapNoteDecryptors prim t !! 10%N).
Proof.
  intros s t.
  apply (proj2 (proj2 (proj2 (@RemoveSproutViewingKey_frame prim 5%N s))) 0%N).
  reflexivity.
Defined.

Lemma consolidation_fee_and_output_witness :
  exists builder : @TransactionBuilder prim,
    build_any builder = Some ([60000; 70000], 120000, 10000)
    /\ fee builder = Some 10000
    /\ outputs builder = [@mkOutput prim 157%N 307%N 120000]
    /\ 0 <= 120000.
Proof.
  apply (@consolidation_fee_and_output prim
           (env two_notes all_witnesses build_any rand_zero no_cancel)
           307%N two_notes (@mkLocals 0 [] 0 true) (@new_job prim 0) 7%N
           ([60000; 70000], 120000, 10000)).
  - reflexivity.
  - repeat constructor; simpl; lia.
  - vm_compute. reflexivity.
  - simpl. lia.
  - vm_compute. reflexivity.
Defined.

(** ** The further properties at concrete inputs *)


Lemma AddCScript_size_bound_witness :
  (fst (@AddCScript prim 520%N (@empty_keystore prim [])) = true
   /\ @GetCScript prim 523%N (snd (@AddCScript prim 520%N (@empty_keystore prim [])))
      = Some 520%N)
  /\ @AddCScript prim 521%N (@empty_keystore prim []) = (false, @empty_keystore prim []).
Proof.
  split.
  - destruct (proj1 (@AddCScript_size_bound prim 520%N (@empty_keystore prim [])))
      as (Hok & Hget & _).
    + vm_compute. discriminate.
    + split; [exact Hok | exact Hget].
  - apply (proj2 (@AddCScript_size_bound prim 521%N (@empty_keystore prim []))).
    vm_compute. reflexivity.
Defined.

Lemma watch_only_set_semantics_witness :
  @HaveWatchOnly prim 2%N (snd (@AddWatchOnly prim 1%N (@empty_keystore prim []))) = false
  /\ @setWatchOnly prim (snd (@RemoveWatchOnly prim 1%N (@empty_keystore prim []))) = ∅.
Proof.
  destruct (@watch_only_set_semantics prim 1%N 2%N (@empty_keystore prim []))
    as (_ & _ & Hother & _ & Hremove).
  split.
  - apply (proj1 (Hother ltac:(vm_compute; discriminate))).
  - apply Hremove. vm_compute. reflexivity.
Defined.


Lemma SetHDSeed_null_seed_can_be_replaced_witness :
  fst (@SetHDSeed prim [] (@empty_keystore prim [])) = true
  /\ fst (@SetHDSeed prim [3%N] (snd (@SetHDSeed prim [] (@empty_keystore prim [])))) = true.
Proof.
  destruct (@SetHDSeed_null_seed_can_be_replaced prim [] [3%N] (@empty_keystore prim [])
              eq_refl eq_refl) as (H1 & _ & _ & H2 & _).
  split; [exact H1 | exact H2].
Defined.

Lemma GetHDSeed_HaveHDSeed_witness :
  @IsNull prim [1%N] = false.
Proof.
  apply (proj2 (@GetHDSeed_HaveHDSeed prim (@with_hdSeed prim [1%N] (@empty_keystore prim [])))
           [1%N]).
  reflexivity.
Defined.

Lemma SproutViewingKey_add_remove_witness :
  @GetSproutViewingKey prim 3%N (snd (@AddSproutViewingKey prim 5%N (@empty_keystore prim [])))
  = None.
Proof.
  apply (proj1 (proj2 (proj2 (proj2 (proj2
           (@SproutViewingKey_add_remove prim 5%N 3%N (@empty_keystore prim [])))))
           ltac:(vm_compute; discriminate))).
Defined.

Lemma note_decryptor_first_wins_witness :
  @mapNoteDecryptors prim
    (snd (@AddSproutSpendingKey prim 0%N
            (snd (@AddSproutViewingKey prim 5%N (@empty_keystore prim []))))) !! 10%N
  = Some 40%N.
Proof.
  etransitivity.
  - apply (proj2 (proj2 (@note_decryptor_first_wins prim 0%N 5%N (@empty_keystore prim [])))
             eq_refl).
  - reflexivity.
Defined.

Lemma viewing_key_gives_no_spending_key_witness :
  @GetSaplingExtendedSpendingKey prim 307%N
    (snd (@AddSaplingFullViewingKey prim 107%N (@empty_keystore prim []))) = None.
Proof.
  apply (@viewing_key_gives_no_spending_key prim 107%N (@empty_keystore prim [])).
  reflexivity.
Defined.

Lemma add_spending_keys_all_retrievable_witness :
  @GetSaplingExtendedSpendingKey prim 308%N
    (@add_spending_keys prim [7%N; 8%N] (@empty_keystore prim [])) = Some 8%N.
Proof.
  apply (@add_spending_keys_all_retrievable prim [7%N; 8%N] 8%N (@empty_keystore prim [])).
  - intros x y Heq. cbn in Heq. lia.
  - intros x y Heq. cbn in Heq. lia.
  - intros x y Heq. cbn in Heq. lia.
  - intros extfvk sk Hsk. vm_compute in Hsk. discriminate.
  - apply list_elem_of_further, list_elem_of_here.
Defined.

Lemma group_by_address_groups_witness :
  [@mkNoteEntry prim 2%N 307%N 60000; @mkNoteEntry prim 4%N 307%N 70000]
  = notes_of (env mixed_notes all_witnesses build_any rand_zero no_cancel) 307%N mixed_notes.
Proof.
  apply (proj2 (@group_by_address_groups prim
                  (env mixed_notes all_witnesses build_any rand_zero no_cancel) mixed_notes)
           307%N).
  vm_compute. apply list_elem_of_here.
Defined.

Lemma group_by_address_sorted_witness :
  StronglySorted (fun a b => N.ltb a b = true)
    (map fst (@group_by_address prim
                (env mixed_notes all_witnesses build_any rand_zero no_cancel) mixed_notes)).
Proof.
  apply (@group_by_address_sorted prim).
  - intros a b c Hab Hbc. cbn in *.
    apply N.ltb_lt in Hab. apply N.ltb_lt in Hbc. apply N.ltb_lt. lia.
  - intros a b Hne Hab. cbn in *.
    apply N.ltb_ge in Hab. apply N.ltb_lt. lia.
Defined.

Lemma select_notes_take_witness :
  snd (@select_notes prim (env mixed_notes all_witnesses build_any rand_zero no_cancel)
         7%N 307%N 1 mixed_notes 0 [])
  = [@mkNoteEntry prim 2%N 307%N 60000].
Proof.
  rewrite (proj1 (@select_notes_take prim
                    (env mixed_notes all_witnesses build_any rand_zero no_cancel)
                    7%N 307%N 1 mixed_notes ltac:(lia))).
  vm_compute. reflexivity.
Defined.

Lemma committed_batch_size_witness :
  (2 <= length (snd (@select_notes prim
                       (env two_notes all_witnesses build_any rand_zero no_cancel)
                       7%N 307%N 10 two_notes 0 [])) <= 44)%nat.
Proof.
  apply (@committed_batch_size prim
           (env two_notes all_witnesses build_any rand_zero no_cancel)
           307%N two_notes (@mkLocals 0 [] 0 true) (@new_job prim 0) 7%N
           ([60000; 70000], 120000, 10000)).
  - reflexivity.
  - vm_compute. reflexivity.
Defined.

Lemma committed_transaction_spends_witness :
  exists builder : @TransactionBuilder prim,
    build_any builder = Some ([60000; 70000], 120000, 10000)
    /\ nHeight builder = 1000
    /\ expiryHeight builder = Some 1030
    /\ map (@spend_note prim) (spends builder) = [60000; 70000].
Proof.
  destruct (@committed_transaction_spends prim
              (env two_notes all_witnesses build_any rand_zero no_cancel)
              307%N two_notes (@mkLocals 0 [] 0 true) (@new_job prim 0) 7%N
              ([60000; 70000], 120000, 10000) eq_refl
              ltac:(vm_compute; reflexivity))
    as (builder & Hbuild & Hheight & Hexpiry & _ & _ & Hall).
  exists builder. split; [exact Hbuild |]. split; [exact Hheight |].
  split; [exact Hexpiry |].
  apply Hall. intros j Hj.
  destruct j as [| [| j]]; [exists 1%N; reflexivity | exists 2%N; reflexivity |].
  vm_compute in Hj. lia.
Defined.

Lemma activation_window_witness :
  @too_close_to_activation prim env_near_activation = true
  /\ result_ (snd (@main_impl prim env_near_activation (@new_job prim 0)))
     = Some (@mkResult 0 0 []).
Proof.
  assert (Hclose : @too_close_to_activation prim env_near_activation = true).
  { apply (proj1 (@activation_window prim env_near_activation (@new_job prim 0))).
    - vm_compute. split; [discriminate | reflexivity].
    - exists 1040. split; [reflexivity | vm_compute; discriminate]. }
  split; [exact Hclose |].
  apply (proj2 (@activation_window prim env_near_activation (@new_job prim 0)) Hclose).
Defined.

Lemma nothing_to_consolidate_witness :
  committed (snd (@main_impl prim (env one_note all_witnesses build_any rand_zero no_cancel)
                    (@new_job prim 0))) = []
  /\ fConsolidationRunning
       (snd (@main_impl prim (env one_note all_witnesses build_any rand_zero no_cancel)
               (@new_job prim 0))) = false.
Proof.
  destruct (@nothing_to_consolidate prim
              (env one_note all_witnesses build_any rand_zero no_cancel) (@new_job prim 0)
              eq_refl ltac:(vm_compute; reflexivity)) as (Hc & _ & _ & Hrun).
  split; [exact Hc | exact Hrun].
Defined.


Lemma allow_list_filters_groups_witness :
  (exists v, v ∈ ["z307"; "junk"]%string /\ decode v = @SaplingAddress prim 307%N)
  /\ exists group, (400%N, group)
                   ∈ @group_by_address prim
                       (env mixed_notes all_witnesses build_any rand_zero no_cancel)
                       mixed_notes.
Proof.
  split.
  - apply (proj1 (proj1 (@allow_list_filters_groups prim (env_allow_list mixed_notes)
                           mixed_notes) eq_refl)
             307%N [@mkNoteEntry prim 2%N 307%N 60000; @mkNoteEntry prim 4%N 307%N 70000]).
    vm_compute. apply list_elem_of_here.
  - destruct (proj2 (@allow_list_filters_groups prim
                       (env mixed_notes all_witnesses build_any rand_zero no_cancel)
                       mixed_notes) eq_refl (@mkNoteEntry prim 1%N 400%N 5))
      as (group & Hin & _).
    + apply list_elem_of_here.
    + exists group. exact Hin.
Defined.
